(** * Verification of [rest/client.go]: the control-channel client of
    hide.client.linux.

    The file embeds the REST client of package [rest]: certificate pinning
    ([Client.Pins]), the custom dialer ([Client.dialContext]), the JSON POST
    exchange ([Client.postJson]), sticky endpoint resolution
    ([Client.Resolve]), the access-token life cycle ([NewClient],
    [Client.GetAccessToken], [Client.HaveAccessToken]) and the protocol
    operations ([Client.Connect], [Client.Disconnect], [Client.ApplyFilter]).

    Go library calls the client relies on are embedded next to it:
    [crypto/sha256.Sum256] and [encoding/base64.StdEncoding] are executable
    definitions; the operating system, the network and [encoding/json] are
    an environment of oracles that answer as a function of the history of
    events, so that every theorem holds for every behaviour of the outside
    world. *)

From Stdlib Require Import ZArith List Ascii String Lia Bool.
From Stdlib.Strings Require Import Byte.
From stdpp Require Import gmap strings list pretty.

Import ListNotations.
Local Open Scope string_scope.
Local Open Scope list_scope.
Local Open Scope Z_scope.

(** ** Go values *)

(** A Go [[]byte]; a slice that may be [nil] is an [option] of it. *)
Abbreviation bytes := (list byte).

(** [[]byte(s)] and [string(b)]. *)
Definition bytes_of_string (s : string) : bytes := list_byte_of_string s.
Definition string_of_bytes (b : bytes) : string := string_of_list_byte b.

Definition byte_val (b : byte) : Z := Z.of_N (Byte.to_N b).

Definition byte_of_Z (z : Z) : byte :=
  match Byte.of_N (Z.to_N (z mod 256)) with
  | Some b => b
  | None => x00
  end.

(** ** crypto/sha256 *)

Module Sha256.

Definition u32 (z : Z) : Z := z mod 2 ^ 32.

Definition add32 (x y : Z) : Z := u32 (x + y).

(** [bits.RotateLeft32(x, -k)]: rotation to the right by [k]. *)
Definition rotr (k x : Z) : Z :=
  Z.lor (Z.shiftr x k) (u32 (Z.shiftl x (32 - k))).

(** [^x] on a [uint32]. *)
Definition not32 (x : Z) : Z := Z.lxor x (2 ^ 32 - 1).

Fixpoint hex_value (s : string) (acc : Z) : Z :=
  match s with
  | EmptyString => acc
  | String c r =>
      let n := Z.of_nat (nat_of_ascii c) in
      let d := if n <? 58 then n - 48 else n - 87 in
      hex_value r (16 * acc + d)
  end.

Fixpoint words_of_hex (fuel : nat) (s : string) : list Z :=
  match fuel with
  | O => []
  | S fuel' =>
      hex_value (substring 0 8 s) 0
        :: words_of_hex fuel' (substring 8 (String.length s - 8) s)
  end.

(** The table [_K] of round constants, eight hexadecimal digits a word. *)
Definition _K : list Z := Eval vm_compute in
  words_of_hex 64
    ("428a2f9871374491b5c0fbcfe9b5dba53956c25b59f111f1923f82a4ab1c5ed5" ++
     "d807aa9812835b01243185be550c7dc372be5d7480deb1fe9bdc06a7c19bf174" ++
     "e49b69c1efbe47860fc19dc6240ca1cc2de92c6f4a7484aa5cb0a9dc76f988da" ++
     "983e5152a831c66db00327c8bf597fc7c6e00bf3d5a7914706ca635114292967" ++
     "27b70a852e1b21384d2c6dfc53380d13650a7354766a0abb81c2c92e92722c85" ++
     "a2bfe8a1a81a664bc24b8b70c76c51a3d192e819d6990624f40e3585106aa070" ++
     "19a4c1161e376c082748774c34b0bcb5391c0cb34ed8aa4a5b9cca4f682e6ff3" ++
     "748f82ee78a5636f84c878148cc7020890befffaa4506cebbef9a3f7c67178f2")%string.

(** The initial state [init0 .. init7]. *)
Definition init : list Z := Eval vm_compute in
  words_of_hex 8
    "6a09e667bb67ae853c6ef372a54ff53a510e527f9b05688c1f83d9ab5be0cd19".

Definition word_at (l : list Z) (i : nat) : Z := nth i l 0.

(** [w[i] = p[j]<<24 | p[j+1]<<16 | p[j+2]<<8 | p[j+3]] for [i < 16]. *)
Fixpoint load_words (n : nat) (p : bytes) : list Z :=
  match n, p with
  | S n', b0 :: b1 :: b2 :: b3 :: r =>
      Z.lor (Z.lor (Z.lor (Z.shiftl (byte_val b0) 24)
                          (Z.shiftl (byte_val b1) 16))
                   (Z.shiftl (byte_val b2) 8))
            (byte_val b3)
        :: load_words n' r
  | _, _ => []
  end.

(** The loop [for i := 16; i < 64; i++] that extends the schedule; [w]
    holds [w[0..i-1]] and [n] counts the words still to be produced. *)
Fixpoint extend (n : nat) (w : list Z) : list Z :=
  match n with
  | O => w
  | S n' =>
      let i := length w in
      let v1 := word_at w (i - 2) in
      let t1 := Z.lxor (Z.lxor (rotr 17 v1) (rotr 19 v1)) (Z.shiftr v1 10) in
      let v2 := word_at w (i - 15) in
      let t2 := Z.lxor (Z.lxor (rotr 7 v2) (rotr 18 v2)) (Z.shiftr v2 3) in
      extend n'
        (w ++ [add32 (add32 (add32 t1 (word_at w (i - 7))) t2)
                     (word_at w (i - 16))])
  end.

Record regs := Regs { ra : Z; rb : Z; rc : Z; rd : Z;
                      re : Z; rf : Z; rg : Z; rh : Z }.

(** One iteration of the compression loop. *)
Definition round (r : regs) (k w : Z) : regs :=
  let '(Regs a b c d e f g h) := r in
  let t1 :=
    add32 (add32 (add32 (add32 h
      (Z.lxor (Z.lxor (rotr 6 e) (rotr 11 e)) (rotr 25 e)))
      (Z.lxor (Z.land e f) (Z.land (not32 e) g))) k) w in
  let t2 :=
    add32 (Z.lxor (Z.lxor (rotr 2 a) (rotr 13 a)) (rotr 22 a))
          (Z.lxor (Z.lxor (Z.land a b) (Z.land a c)) (Z.land b c)) in
  Regs (add32 t1 t2) a b c (add32 d t1) e f g.

Fixpoint rounds (r : regs) (ks ws : list Z) : regs :=
  match ks, ws with
  | k :: ks', w :: ws' => rounds (round r k w) ks' ws'
  | _, _ => r
  end.

(** [blockGeneric] on one chunk of 64 bytes. *)
Definition block (h : regs) (p : bytes) : regs :=
  let w := extend 48 (load_words 16 p) in
  let '(Regs a b c d e f g h') := rounds h _K w in
  Regs (add32 (ra h) a) (add32 (rb h) b) (add32 (rc h) c) (add32 (rd h) d)
       (add32 (re h) e) (add32 (rf h) f) (add32 (rg h) g) (add32 (rh h) h').

Fixpoint blocks (fuel : nat) (h : regs) (p : bytes) : regs :=
  match fuel with
  | O => h
  | S fuel' =>
      if (length p <? 64)%nat then h
      else blocks fuel' (block h (firstn 64 p)) (skipn 64 p)
  end.

(** Big-endian bytes of a word, [n] of them. *)
Fixpoint be_bytes (n : nat) (z : Z) : bytes :=
  match n with
  | O => []
  | S n' => byte_of_Z (Z.shiftr z (8 * Z.of_nat n')) :: be_bytes n' z
  end.

(** [digest.checkSum]: a 0x80 byte, zeroes up to 56 modulo 64, then the
    length in bits as 8 big-endian bytes. *)
Definition pad (data : bytes) : bytes :=
  let n := Z.of_nat (length data) in
  let zeros := Z.to_nat ((55 - n) mod 64) in
  data ++ x80 :: repeat x00 zeros ++ be_bytes 8 (8 * n).

Definition Sum256 (data : bytes) : bytes :=
  let p := pad data in
  let h0 :=
    Regs (word_at init 0) (word_at init 1) (word_at init 2) (word_at init 3)
         (word_at init 4) (word_at init 5) (word_at init 6) (word_at init 7) in
  let '(Regs a b c d e f g h) := blocks (length p) h0 p in
  flat_map (be_bytes 4) [a; b; c; d; e; f; g; h].

End Sha256.

(** ** encoding/base64, [StdEncoding] *)

Module Base64.

Definition encodeStd : string :=
  "ABCDEFGHIJKLMNOPQRSTUVWXYZabcdefghijklmnopqrstuvwxyz0123456789+/".

Definition padChar : ascii := "="%char.

(** [enc.encode[v & 0x3F]]. *)
Definition enc_char (v : Z) : ascii :=
  match String.get (Z.to_nat (Z.land v 63)) encodeStd with
  | Some c => c
  | None => padChar
  end.

(** [Encoding.Encode]: whole groups of three bytes, then the remainder
    with padding. *)
Fixpoint encode (src : bytes) : string :=
  match src with
  | [] => ""
  | [b0] =>
      let val := Z.shiftl (byte_val b0) 16 in
      String (enc_char (Z.shiftr val 18))
        (String (enc_char (Z.shiftr val 12))
           (String padChar (String padChar "")))
  | [b0; b1] =>
      let val := Z.lor (Z.shiftl (byte_val b0) 16)
                       (Z.shiftl (byte_val b1) 8) in
      String (enc_char (Z.shiftr val 18))
        (String (enc_char (Z.shiftr val 12))
           (String (enc_char (Z.shiftr val 6)) (String padChar "")))
  | b0 :: b1 :: b2 :: r =>
      let val := Z.lor (Z.lor (Z.shiftl (byte_val b0) 16)
                              (Z.shiftl (byte_val b1) 8))
                       (byte_val b2) in
      String (enc_char (Z.shiftr val 18))
        (String (enc_char (Z.shiftr val 12))
           (String (enc_char (Z.shiftr val 6))
              (String (enc_char val) (encode r))))
  end.

Definition EncodeToString (src : bytes) : string := encode src.

(** [enc.decodeMap[in]]: the position of [in] in the alphabet; [None] stands
    for the entry 0xff of a byte outside it. *)
Fixpoint index_of (c : ascii) (alphabet : string) (i : Z) : option Z :=
  match alphabet with
  | EmptyString => None
  | String a r => if Ascii.eqb a c then Some i else index_of c r (i + 1)
  end.

Definition decodeMap (c : ascii) : option Z := index_of c encodeStd 0.

Definition is_newline (c : ascii) : bool :=
  Ascii.eqb c "010"%char || Ascii.eqb c "013"%char.

(** [for si < len(src) && (src[si] == '\n' || src[si] == '\r') { si++ }]. *)
Fixpoint skip_newlines (src : list ascii) (si : Z) : list ascii * Z :=
  match src with
  | c :: r => if is_newline c then skip_newlines r (si + 1) else (src, si)
  | [] => (src, si)
  end.

(** The error of a malformed input: its offset. *)
Inductive CorruptInputError := Corrupt (offset : Z).

(** What [decodeQuantum] returns: the input left, [nsi], the bytes written
    to [dst] (there are [n] of them) and [err]. *)
Record quantum_result := QuantumResult {
  q_rest : list ascii;
  q_si : Z;
  q_out : bytes;
  q_err : option CorruptInputError
}.

(** The conversion of [dlen] six-bit values into [dlen - 1] bytes that ends
    [decodeQuantum]; [StdEncoding] is not strict. *)
Definition assemble (dbuf : list Z) : bytes :=
  let val :=
    Z.lor (Z.lor (Z.lor (Z.shiftl (nth 0 dbuf 0) 18)
                        (Z.shiftl (nth 1 dbuf 0) 12))
                 (Z.shiftl (nth 2 dbuf 0) 6))
          (nth 3 dbuf 0) in
  firstn (length dbuf - 1)
    [byte_of_Z (Z.shiftr val 16); byte_of_Z (Z.shiftr val 8); byte_of_Z val].

(** The end of a quantum that met padding: newlines are skipped and anything
    left is trailing garbage; the bytes decoded so far are still written. *)
Definition after_padding (src : list ascii) (si : Z) (dbuf : list Z)
  : quantum_result :=
  let '(src', si') := skip_newlines src si in
  QuantumResult src' si' (assemble dbuf)
    (match src' with [] => None | _ :: _ => Some (Corrupt si') end).

(** [Encoding.decodeQuantum]; [dbuf] holds the values read so far, [j] of the
    source is its length, and [si] is the offset of [src] in the input. *)
Fixpoint decodeQuantum (src : list ascii) (si : Z) (dbuf : list Z)
  : quantum_result :=
  let j := Z.of_nat (length dbuf) in
  match src with
  | [] =>
      if j =? 0 then QuantumResult [] si [] None
      else QuantumResult [] si [] (Some (Corrupt (si - j)))
  | c :: r =>
      let si := si + 1 in
      match decodeMap c with
      | Some out =>
          if j =? 3 then QuantumResult r si (assemble (dbuf ++ [out])) None
          else decodeQuantum r si (dbuf ++ [out])
      | None =>
          if is_newline c then decodeQuantum r si dbuf
          else if negb (Ascii.eqb c padChar) then
            QuantumResult r si [] (Some (Corrupt (si - 1)))
          else if j <? 2 then
            QuantumResult r si [] (Some (Corrupt (si - 1)))
          else if j =? 2 then
            let '(r', si') := skip_newlines r si in
            match r' with
            | [] => QuantumResult r' si' [] (Some (Corrupt si'))
            | c' :: r'' =>
                if negb (Ascii.eqb c' padChar) then
                  QuantumResult r' si' [] (Some (Corrupt (si' - 1)))
                else after_padding r'' (si' + 1) dbuf
            end
          else after_padding r si dbuf
      end
  end.

(** [Encoding.Decode]: quanta are decoded until the input ends or one of
    them fails; [n] counts the bytes written before the failure. *)
Fixpoint decode_loop (fuel : nat) (src : list ascii) (si : Z) (acc : bytes)
  : bytes * option CorruptInputError :=
  match fuel, src with
  | _, [] => (acc, None)
  | O, _ => (acc, None)
  | S fuel', _ =>
      let q := decodeQuantum src si [] in
      match q_err q with
      | Some e => (acc ++ q_out q, Some e)
      | None => decode_loop fuel' (q_rest q) (q_si q) (acc ++ q_out q)
      end
  end.

(** [Encoding.DecodeString]: [dbuf[:n], err]. The slice is cut from a buffer
    that [make] allocated, so it is never nil, and on a malformed input it
    holds the bytes decoded before the error. *)
Definition DecodeString (s : string) : bytes * option CorruptInputError :=
  decode_loop (String.length s) (list_ascii_of_string s) 0 [].

End Base64.

(** ** Errors

    The three package-level error values, the errors the client makes with
    [errors.New], and the errors that come from outside. *)

Inductive error : Type :=
| ErrAppUpdateRequired
| ErrHttpStatusBad
| ErrBadPin
| errors_New (text : string)
| Base64Error (e : Base64.CorruptInputError)
| OpError (op net addr : string) (err : error)
| ValidationError (field : string)
| ForeignError (text : string).

(** [err.Error()]. *)
Fixpoint Error (e : error) : string :=
  match e with
  | ErrAppUpdateRequired => "application update required"
  | ErrHttpStatusBad => "bad HTTP status"
  | ErrBadPin => "bad public key PIN"
  | errors_New text => text
  | Base64Error (Base64.Corrupt n) =>
      "illegal base64 data at input byte " +:+ pretty n
  | OpError op net addr err =>
      op +:+ " " +:+ net +:+ " " +:+ addr +:+ ": " +:+ Error err
  | ValidationError field => "bad " +:+ field
  | ForeignError text => text
  end.

(** A Go result [(value, err)] of which the caller reads the value only when
    [err] is nil. *)
Inductive result (A : Type) : Type :=
| Ok (a : A)
| Err (e : error).
Arguments Ok {A} a.
Arguments Err {A} e.

(** A function that may panic instead of returning. *)
Inductive outcome (A : Type) : Type :=
| Returns (a : A)
| Panics (reason : string).
Arguments Returns {A} a.
Arguments Panics {A} reason.

(** ** net *)

(** [net.IP], a byte slice; [None] is the nil slice. *)
Abbreviation IP := (option bytes).

Record IPAddr := { IPAddr_IP : IP; IPAddr_Zone : string }.

Record TCPAddr := { TCPAddr_IP : IP; TCPAddr_Port : Z; TCPAddr_Zone : string }.

(** [net.JoinHostPort]. *)
Definition JoinHostPort (host port : string) : string :=
  if existsb (Ascii.eqb ":"%char) (list_ascii_of_string host)
  then "[" +:+ host +:+ "]:" +:+ port
  else host +:+ ":" +:+ port.

(** ** crypto/x509 and net/http values *)

Record pkix_Name := { CommonName : string }.

(** The fields of [x509.Certificate] that the client reads, and its issuer. *)
Record Certificate := {
  IsCA : bool;
  RawSubjectPublicKeyInfo : bytes;
  Subject : pkix_Name;
  Issuer : pkix_Name
}.

Record Request := {
  Method : string;
  URL : string;
  Header : list (string * string);
  Body : bytes
}.

(** A response: its status and what [io.ReadAll] gives on its body. *)
Record Response := {
  StatusCode : Z;
  ReadAll : bytes * option error
}.

Definition StatusForbidden : Z := 403.
Definition StatusOK : Z := 200.

(** [tls.Config] and [http.Transport] as [NewClient] fills them; the field
    [VerifyPeerCertificate] is [Client.Pins] and [DialContext] is
    [Client.dialContext]. *)
Record TLSConfig := {
  NextProtos : list string;
  ServerName : string;
  MinVersion : Z;
  RootCAs : option (list bytes)
}.

Record Transport := {
  TLSHandshakeTimeout : Z;
  DisableKeepAlives : bool;
  ResponseHeaderTimeout : Z;
  ForceAttemptHTTP2 : bool;
  TLSClientConfig : TLSConfig
}.

Definition VersionTLS13 : Z := 772.
Definition Second : Z := 1000000000.

(** ** The requests of package [rest]

    Their fields are those of the composite literals in [client.go]. *)

Record ConnectRequest := {
  ConnectRequest_Host : string;
  ConnectRequest_Domain : string;
  ConnectRequest_AccessToken : option bytes;
  ConnectRequest_PublicKey : bytes
}.

Record DisconnectRequest := {
  DisconnectRequest_Host : string;
  DisconnectRequest_Domain : string;
  DisconnectRequest_SessionToken : option bytes
}.

Record AccessTokenRequest := {
  AccessTokenRequest_Host : string;
  AccessTokenRequest_Domain : string;
  AccessTokenRequest_AccessToken : option bytes;
  AccessTokenRequest_Username : string;
  AccessTokenRequest_Password : string
}.

(** [wgtypes.Key], an array of 32 bytes. *)
Definition KeyLen : nat := 32.

Record Key := {
  key_bytes : bytes;
  key_len : length key_bytes = KeyLen
}.

(** ** Events

    What the program does to the outside world, in the order it does it. *)

Inductive Event : Type :=
| EvPrintln (line : string)
| EvReadFile (name : string)
| EvWriteFile (name : string) (data : bytes) (perm : Z)
| EvLookupIPAddr (host : string)
| EvHttpDo (request : Request)
| EvSocket (network addr : string)
| EvRawControl (fd : Z)
| EvSetsockoptInt (fd level opt value : Z)
| EvConnect (fd : Z) (addr : string)
| EvClose (fd : Z)
| EvRandIntn (n : Z).

(** The events that put something on the network: a DNS query, an HTTP
    exchange, the creation of a socket and its connection. *)
Definition is_network (e : Event) : bool :=
  match e with
  | EvLookupIPAddr _ | EvHttpDo _ | EvSocket _ _ | EvConnect _ _ => true
  | _ => false
  end.

Definition is_dns_query (e : Event) : bool :=
  match e with
  | EvLookupIPAddr _ => true
  | _ => false
  end.

(** A computation reads the history and extends it. *)
Definition IO (A : Type) : Type := list Event → A * list Event.

#[global] Instance IO_ret : MRet IO := λ A a h, (a, h).
#[global] Instance IO_bind : MBind IO :=
  λ A B k m h, let '(a, h') := m h in k a h'.

Definition emit (e : Event) : IO unit := λ h, (tt, h ++ [e]).

(** An oracle is asked with the history so far, then the call is recorded. *)
Definition call {A : Type} (oracle : list Event → A) (e : Event) : IO A :=
  λ h, (oracle h, h ++ [e]).

(** [fmt.Println]: the operands separated by spaces. *)
Definition Println (operands : list string) : IO unit :=
  emit (EvPrintln (String.concat " " operands)).

(** ** strings *)

(** [strings.Split(s, sep)] for a separator of one byte. *)
Fixpoint strings_Split (s : string) (sep : ascii) : list string :=
  match s with
  | EmptyString => [""]
  | String ch r =>
      if Ascii.eqb ch sep then "" :: strings_Split r sep
      else match strings_Split r sep with
           | x :: xs => String ch x :: xs
           | [] => [String ch ""]
           end
  end.

Definition strings_HasSuffix (s suffix : string) : bool :=
  (String.length suffix <=? String.length s)%nat
  && String.eqb
       (substring (String.length s - String.length suffix)
                  (String.length suffix) s)
       suffix.

(** [strings.TrimSuffix]. *)
Definition strings_TrimSuffix (s suffix : string) : string :=
  if strings_HasSuffix s suffix
  then substring 0 (String.length s - String.length suffix) s
  else s.

Section Rest.

(** The types [Filter] and [ConnectResponse] of package [rest] are declared
    outside [client.go]; the client only moves their values around. *)
Context {rest_Filter ConnectResponse : Type}.

Record Config := {
  APIVersion : string;
  Host : string;
  Port : Z;
  Domain : string;
  AccessTokenFile : string;
  Username : string;
  Password : string;
  RestTimeout : Z;
  ReconnectWait : Z;
  AccessTokenUpdateDelay : Z;
  CA : string;
  FirewallMark : Z;
  DnsServers : string;
  Config_Filter : rest_Filter
}.

Record Client := {
  Client_Config : Config;
  transport : Transport;
  client_Timeout : Z;
  dnsServers : list string;
  remote : option TCPAddr;
  accessToken : option bytes;
  authorizedPins : gmap string string
}.

(** The object handed to [postJson]. *)
Inductive Payload : Type :=
| PConnect (r : ConnectRequest)
| PDisconnect (r : DisconnectRequest)
| PAccessToken (r : AccessTokenRequest)
| PFilter (f : rest_Filter).

(** The environment of the client. Its first group is made of library
    functions that only depend on their arguments, its second group of the
    [Check] methods that package [rest] declares outside [client.go], and
    its third group of the outside world, whose answers depend on all that
    happened before. *)
Record Env := {
  net_ParseIP : string → IP;
  IP_String : bytes → string;
  strings_TrimSpace : string → string;
  AppendCertsFromPEM : bytes → list bytes * bool;
  json_MarshalIndent : Payload → bytes * option error;
  json_Unmarshal_string : bytes → result string;
  json_Unmarshal_ConnectResponse : bytes → ConnectResponse * option error;
  http_NewRequest : string → option error;

  ConnectRequest_Check : ConnectRequest → option error;
  DisconnectRequest_Check : DisconnectRequest → option error;
  AccessTokenRequest_Check : AccessTokenRequest → option error;
  Filter_Check : rest_Filter → option error;

  os_ReadFile : list Event → string → result bytes;
  ioutil_WriteFile : list Event → string → bytes → Z → option error;
  resolver_LookupIPAddr : list Event → string → result (list IPAddr);
  client_Do : list Event → Request → result Response;
  sys_socket : list Event → string → string → result Z;
  rawConn_closed : list Event → Z → option error;
  syscall_SetsockoptInt : list Event → Z → Z → Z → Z → option error;
  sys_connect : list Event → Z → string → option error;
  rand_Intn : list Event → Z → Z
}.

Variable env : Env.

(** *** Field updates *)

Definition with_Port (p : Z) (k : Config) : Config :=
  {| APIVersion := APIVersion k; Host := Host k; Port := p;
     Domain := Domain k; AccessTokenFile := AccessTokenFile k;
     Username := Username k; Password := Password k;
     RestTimeout := RestTimeout k; ReconnectWait := ReconnectWait k;
     AccessTokenUpdateDelay := AccessTokenUpdateDelay k; CA := CA k;
     FirewallMark := FirewallMark k; DnsServers := DnsServers k;
     Config_Filter := Config_Filter k |}.

Definition with_ServerName (name : string) (t : Transport) : Transport :=
  {| TLSHandshakeTimeout := TLSHandshakeTimeout t;
     DisableKeepAlives := DisableKeepAlives t;
     ResponseHeaderTimeout := ResponseHeaderTimeout t;
     ForceAttemptHTTP2 := ForceAttemptHTTP2 t;
     TLSClientConfig :=
       {| NextProtos := NextProtos (TLSClientConfig t);
          ServerName := name;
          MinVersion := MinVersion (TLSClientConfig t);
          RootCAs := RootCAs (TLSClientConfig t) |} |}.

Definition with_transport (t : Transport) (c : Client) : Client :=
  {| Client_Config := Client_Config c; transport := t;
     client_Timeout := client_Timeout c; dnsServers := dnsServers c;
     remote := remote c; accessToken := accessToken c;
     authorizedPins := authorizedPins c |}.

Definition with_remote (r : option TCPAddr) (c : Client) : Client :=
  {| Client_Config := Client_Config c; transport := transport c;
     client_Timeout := client_Timeout c; dnsServers := dnsServers c;
     remote := r; accessToken := accessToken c;
     authorizedPins := authorizedPins c |}.

Definition with_accessToken (t : option bytes) (c : Client) : Client :=
  {| Client_Config := Client_Config c; transport := transport c;
     client_Timeout := client_Timeout c; dnsServers := dnsServers c;
     remote := remote c; accessToken := t;
     authorizedPins := authorizedPins c |}.

(** [c.transport.TLSClientConfig.ServerName]. *)
Definition Client_ServerName (c : Client) : string :=
  ServerName (TLSClientConfig (transport c)).

(** [String] of a [net.TCPAddr] pointer, which answers for a nil receiver
    too. *)
Definition TCPAddr_String (a : option TCPAddr) : string :=
  match a with
  | None => "<nil>"
  | Some a =>
      let ip :=
        match TCPAddr_IP a with
        | None | Some [] => ""
        | Some b => IP_String env b
        end in
      if (0 <? String.length (TCPAddr_Zone a))%nat
      then JoinHostPort (ip +:+ "%" +:+ TCPAddr_Zone a)
                        (pretty (TCPAddr_Port a))
      else JoinHostPort ip (pretty (TCPAddr_Port a))
  end.

(** *** NewClient *)

(** The table of authorized pins: common name of a CA and the base64 text
    of the SHA-256 digest of its public key. *)
Definition pin_table : gmap string string :=
  <["Hide.Me Root CA" := "AdKh8rXi68jeqv5kEzF4wJ9M2R89gFuMILRQ1uwADQI="]>
  (<["Hide.Me Server CA #1" :=
       "CsEyDelMHMPh9qLGgeQn8sJwdUwvc+fCMhOU9Ne5PbU="]>
  (<["DigiCert Global Root CA" :=
       "r/mIkG3eEpVdm+u/ko/cwxzOMo1bk4TyHIlByibiA5E="]>
  (<["DigiCert TLS RSA SHA256 2020 CA1" :=
       "RQeZkB42znUfsDIIFWIRiYEcKl7nHwNFwWCrnMMJbVc="]> ∅))).

Definition ReadFile (name : string) : IO (result bytes) :=
  call (λ h, os_ReadFile env h name) (EvReadFile name).

(** The root CAs: [Ok None] stands for the system roots. *)
Definition load_RootCAs (config : Config) : IO (result (option (list bytes))) :=
  if (0 <? String.length (CA config))%nat then
    pem ← ReadFile (CA config);
    match pem with
    | Err err => mret (Err err)
    | Ok pem =>
        let '(pool, ok) := AppendCertsFromPEM env pem in
        if negb ok
        then mret (Err (errors_New ("Bad certificate in " +:+ CA config)))
        else mret (Ok (Some pool))
    end
  else mret (Ok None).

(** The credential read at construction: a file that cannot be read leaves
    it nil; the result of [DecodeString] is stored whatever its error. *)
Definition load_accessToken (config : Config) : IO (option bytes) :=
  if (0 <? String.length (AccessTokenFile config))%nat then
    r ← ReadFile (AccessTokenFile config);
    match r with
    | Ok accessTokenBytes =>
        mret (Some (fst (Base64.DecodeString
                           (string_of_bytes accessTokenBytes))))
    | Err _ => mret None
    end
  else mret None.

Definition NewClient (config : Config) : IO (option Client * option error) :=
  let config := if Port config =? 0 then with_Port 432 config else config in
  roots ← load_RootCAs config;
  match roots with
  | Err err => mret (None, Some err)
  | Ok roots =>
      let servers :=
        if (0 <? String.length (DnsServers config))%nat
        then map (strings_TrimSpace env)
                 (strings_Split (DnsServers config) ","%char)
        else ["1.1.1.1:53"] in
      token ← load_accessToken config;
      mret (Some {|
        Client_Config := config;
        transport := {|
          TLSHandshakeTimeout := Second * 5;
          DisableKeepAlives := true;
          ResponseHeaderTimeout := Second * 5;
          ForceAttemptHTTP2 := true;
          TLSClientConfig := {|
            NextProtos := ["h2"];
            ServerName := "";
            MinVersion := VersionTLS13;
            RootCAs := roots |} |};
        client_Timeout := RestTimeout config;
        dnsServers := servers;
        remote := None;
        accessToken := token;
        authorizedPins := pin_table |}, None)
  end.

Definition Remote (c : Client) : option TCPAddr := remote c.

Definition HaveAccessToken (c : Client) : bool :=
  match accessToken c with
  | Some _ => true
  | None => false
  end.

(** *** Pins *)

(** The loop over the table, [for name, authorizedPin := range
    c.authorizedPins], in the order [entries]: it stops at the first entry
    that has both the common name and the pin. *)
Fixpoint pin_listed (entries : list (string * string)) (cn pin : string)
  : bool :=
  match entries with
  | [] => false
  | (name, authorizedPin) :: rest =>
      if String.eqb cn name && String.eqb pin authorizedPin then true
      else pin_listed rest cn pin
  end.

(** [base64.StdEncoding.EncodeToString(sum[:])] of the SHA-256 digest of
    the raw public-key info. *)
Definition certificate_pin (certificate : Certificate) : string :=
  Base64.EncodeToString (Sha256.Sum256 (RawSubjectPublicKeyInfo certificate)).

(** The loop labelled [chainLoop]: [Some ErrBadPin] leaves [Pins], [None]
    goes on with the next chain. *)
Fixpoint Pins_chain (c : Client) (chain : list Certificate)
  : IO (option error) :=
  match chain with
  | [] => mret None
  | certificate :: rest =>
      if negb (IsCA certificate) then Pins_chain c rest
      else
        let pin := certificate_pin certificate in
        let cn := CommonName (Subject certificate) in
        if pin_listed (map_to_list (authorizedPins c)) cn pin then
          _ ← Println ["Pins:"; cn; "pin OK"];
          Pins_chain c rest
        else
          _ ← Println ["Pins:"; cn; "pin failed"];
          mret (Some ErrBadPin)
  end.

Fixpoint Pins_chains (c : Client) (chains : list (list Certificate))
  : IO (option error) :=
  match chains with
  | [] => mret None
  | chain :: rest =>
      r ← Pins_chain c chain;
      match r with
      | Some err => mret (Some err)
      | None => Pins_chains c rest
      end
  end.

Definition Pins (c : Client) (rawCerts : list bytes)
  (verifiedChains : list (list Certificate)) : IO (option error) :=
  Pins_chains c verifiedChains.

(** A certificate is pinned when the table maps the common name of its
    subject to its pin. *)
Definition subject_pinned (c : Client) (certificate : Certificate) : Prop :=
  authorizedPins c !! CommonName (Subject certificate)
    = Some (certificate_pin certificate).

(** The same with the common name of the issuer. *)
Definition issuer_pinned (c : Client) (certificate : Certificate) : Prop :=
  authorizedPins c !! CommonName (Issuer certificate)
    = Some (certificate_pin certificate).

(** Every CA certificate of every chain satisfies [P]. *)
Definition every_CA (P : Certificate → Prop)
  (chains : list (list Certificate)) : Prop :=
  ∀ chain certificate,
    chain ∈ chains → certificate ∈ chain → IsCA certificate = true →
    P certificate.

(** *** dialContext *)

Definition SOL_SOCKET : Z := 1.
Definition SO_MARK : Z := 36.

(** [net.Dialer]: its hook [Control], nil or a function of the network, the
    address and the raw connection, here the descriptor it wraps. *)
Record Dialer := {
  Control : option (string → string → Z → IO (option error))
}.

(** [rawConn.Control(f)]: [f] runs on the descriptor and nil is returned,
    unless the connection is closed, and then [f] does not run. The
    function [f] writes the variable [err] it captured: it takes its value
    and returns the new one. *)
Definition RawConn_Control (rawConn : Z)
  (f : Z → option error → IO (option error)) (err : option error)
  : IO (option error * option error) :=
  closed ← call (λ h, rawConn_closed env h rawConn) (EvRawControl rawConn);
  match closed with
  | Some e => mret (Some e, err)
  | None => err' ← f rawConn err; mret (None, err')
  end.

Definition SetsockoptInt (fd level opt value : Z) : IO (option error) :=
  call (λ h, syscall_SetsockoptInt env h fd level opt value)
       (EvSetsockoptInt fd level opt value).

(** The function literal stored in [dialer.Control]. Its result [err] is
    named: the inner function assigns it, and the bare [return] returns
    it; what [rawConn.Control] itself returns is dropped. *)
Definition mark_hook (c : Client) (_ _ : string) (rawConn : Z)
  : IO (option error) :=
  r ← RawConn_Control rawConn
        (λ fd _,
           err ← SetsockoptInt fd SOL_SOCKET SO_MARK
                   (FirewallMark (Client_Config c));
           match err with
           | Some e =>
               _ ← Println ["Dial: [ERR] Set mark failed,"; Error e];
               mret err
           | None => mret err
           end)
        None;
  mret (snd r).

(** One attempt of [net.Dialer.DialContext] on an address: the socket is
    made, the hook [Control] is called "after creating the network
    connection but before actually dialing", and an error of the hook
    closes the socket and ends the dial; then the socket is connected. The
    connection is the descriptor. *)
Definition Dialer_DialContext (d : Dialer) (network addr : string)
  : IO (result Z) :=
  s ← call (λ h, sys_socket env h network addr) (EvSocket network addr);
  match s with
  | Err e => mret (Err (OpError "dial" network addr e))
  | Ok fd =>
      hook ← match Control d with
             | Some f => f network addr fd
             | None => mret None
             end;
      match hook with
      | Some e =>
          _ ← emit (EvClose fd);
          mret (Err (OpError "dial" network addr e))
      | None =>
          r ← call (λ h, sys_connect env h fd addr) (EvConnect fd addr);
          match r with
          | Some e =>
              _ ← emit (EvClose fd);
              mret (Err (OpError "dial" network addr e))
          | None => mret (Ok fd)
          end
      end
  end.

Definition dialContext (c : Client) (network addr : string)
  : IO (outcome (result Z)) :=
  let dialer :=
    {| Control := if 0 <? FirewallMark (Client_Config c)
                  then Some (mark_hook c) else None |} in
  if String.eqb network "udp" then
    let n := Z.of_nat (length (dnsServers c)) in
    if n <=? 0 then mret (Panics "invalid argument to Intn")
    else
      i ← call (λ h, rand_Intn env h n) (EvRandIntn n);
      match (if i <? 0 then None else dnsServers c !! Z.to_nat i) with
      | None => mret (Panics "index out of range")
      | Some server =>
          r ← Dialer_DialContext dialer network server;
          mret (Returns r)
      end
  else
    r ← Dialer_DialContext dialer network addr;
    mret (Returns r).

(** Where [dialContext] dials and the history at which it makes the socket:
    the address it is asked for or, on the network "udp", one of the DNS
    servers, drawn at random. *)
Definition dials (c : Client) (network addr : string) (h : list Event)
  (target : string) (h1 : list Event) : Prop :=
  if String.eqb network "udp" then
    let n := Z.of_nat (length (dnsServers c)) in
    0 < n ∧ 0 ≤ rand_Intn env h n
    ∧ dnsServers c !! Z.to_nat (rand_Intn env h n) = Some target
    ∧ h1 = h ++ [EvRandIntn n]
  else target = addr ∧ h1 = h.

(** *** postJson *)

Definition Do (request : Request) : IO (result Response) :=
  call (λ h, client_Do env h request) (EvHttpDo request).

(** The request [postJson] builds: a POST of [body] with the two headers it
    sets. *)
Definition post_request (url : string) (body : bytes) : Request :=
  {| Method := "POST"; URL := url;
     Header := [("User-Agent", "HIDE.ME.LINUX.CLI-0.9.3");
                ("Content-Type", "application/json")];
     Body := body |}.

Definition postJson (c : Client) (url : string) (object : Payload)
  : IO (option bytes * option error) :=
  match json_MarshalIndent env object with
  | (_, Some err) => mret (None, Some err)
  | (body, None) =>
      match http_NewRequest env url with
      | Some err => mret (None, Some err)
      | None =>
          let request := post_request url body in
          r ← Do request;
          match r with
          | Err err => mret (None, Some err)
          | Ok response =>
              if StatusCode response =? StatusForbidden then
                _ ← Println ["Rest: [ERR] Application update required"];
                mret (None, Some ErrAppUpdateRequired)
              else if negb (StatusCode response =? StatusOK) then
                _ ← Println ["Rest: [ERR] Bad HTTP response (";
                             pretty (StatusCode response); ")"];
                mret (None, Some ErrHttpStatusBad)
              else
                mret (Some (fst (ReadAll response)), snd (ReadAll response))
          end
      end
  end.

(** The exchange takes place: at history [h] the object is marshalled, the
    request is made, and the server answers it with [response]. *)
Definition answers (h : list Event) (url : string) (object : Payload)
  (response : Response) : Prop :=
  ∃ body,
    json_MarshalIndent env object = (body, None)
    ∧ http_NewRequest env url = None
    ∧ client_Do env h (post_request url body) = Ok response.

(** *** Resolve *)

Definition LookupIPAddr (host : string) : IO (result (list IPAddr)) :=
  call (λ h, resolver_LookupIPAddr env h host) (EvLookupIPAddr host).

Definition Resolve (c : Client) : IO (Client * option error) :=
  let host := Host (Client_Config c) in
  match net_ParseIP env host with
  | Some ip =>
      let c := with_remote
                 (Some {| TCPAddr_IP := Some ip;
                          TCPAddr_Port := Port (Client_Config c);
                          TCPAddr_Zone := "" |}) c in
      let c := with_transport
                 (with_ServerName "hideservers.net" (transport c)) c in
      mret (c, None)
  | None =>
      r ← LookupIPAddr host;
      match r with
      | Err err =>
          _ ← Println ["Resolve: [ERR]"; host; "lookup failed,"; Error err];
          match remote c with
          | Some _ =>
              _ ← Println ["Resolve: Using previous lookup response";
                           TCPAddr_String (remote c)];
              mret (c, None)
          | None => mret (c, Some err)
          end
      | Ok addrs =>
          match addrs with
          | [] => mret (c, Some (errors_New ("dns lookup failed for " +:+ host)))
          | first :: _ =>
              match IPAddr_IP first with
              | None => mret (c, Some (errors_New ("no IP found for " +:+ host)))
              | Some ip =>
                  let c := with_transport
                             (with_ServerName host (transport c)) c in
                  let c := with_remote
                             (Some {| TCPAddr_IP := Some ip;
                                      TCPAddr_Port := Port (Client_Config c);
                                      TCPAddr_Zone := "" |}) c in
                  _ ← Println ["Name: Resolved"; host; "to";
                               match ip with [] => "<nil>" | _ => IP_String env ip end];
                  mret (c, None)
              end
          end
      end
  end.

(** *** The protocol operations *)

Definition endpoint (c : Client) (operation : string) : string :=
  "https://" +:+ TCPAddr_String (remote c) +:+ "/"
    +:+ APIVersion (Client_Config c) +:+ operation.

Definition trimmed_Host (c : Client) : string :=
  strings_TrimSuffix (Host (Client_Config c)) ".hideservers.net".

Definition slice_or_empty (b : option bytes) : bytes :=
  match b with
  | Some b => b
  | None => []
  end.

(** The three requests built from the configuration and the state. *)
Definition connect_request (c : Client) (key : Key) : ConnectRequest :=
  {| ConnectRequest_Host := trimmed_Host c;
     ConnectRequest_Domain := Domain (Client_Config c);
     ConnectRequest_AccessToken := accessToken c;
     ConnectRequest_PublicKey := key_bytes key |}.

Definition disconnect_request (c : Client) (sessionToken : option bytes)
  : DisconnectRequest :=
  {| DisconnectRequest_Host := trimmed_Host c;
     DisconnectRequest_Domain := Domain (Client_Config c);
     DisconnectRequest_SessionToken := sessionToken |}.

Definition accessToken_request (c : Client) : AccessTokenRequest :=
  {| AccessTokenRequest_Host := trimmed_Host c;
     AccessTokenRequest_Domain := Domain (Client_Config c);
     AccessTokenRequest_AccessToken := accessToken c;
     AccessTokenRequest_Username := Username (Client_Config c);
     AccessTokenRequest_Password := Password (Client_Config c) |}.

Definition Connect (c : Client) (key : Key)
  : IO (option ConnectResponse * option error) :=
  let connectRequest := connect_request c key in
  match ConnectRequest_Check env connectRequest with
  | Some err => mret (None, Some err)
  | None =>
      '(responseBody, err) ← postJson c (endpoint c "/connect")
                               (PConnect connectRequest);
      match err with
      | Some err => mret (None, Some err)
      | None =>
          let '(connectResponse, err) :=
            json_Unmarshal_ConnectResponse env (slice_or_empty responseBody) in
          mret (Some connectResponse, err)
      end
  end.

Definition Disconnect (c : Client) (sessionToken : option bytes)
  : IO (option error) :=
  let disconnectRequest := disconnect_request c sessionToken in
  match DisconnectRequest_Check env disconnectRequest with
  | Some err => mret (Some err)
  | None =>
      '(_, err) ← postJson c (endpoint c "/disconnect")
                    (PDisconnect disconnectRequest);
      mret err
  end.

Definition WriteFile (name : string) (data : bytes) (perm : Z)
  : IO (option error) :=
  call (λ h, ioutil_WriteFile env h name data perm)
       (EvWriteFile name data perm).

(** [0600]. *)
Definition owner_only : Z := 384.

Definition GetAccessToken (c : Client) : IO (Client * option error) :=
  let accessTokenRequest := accessToken_request c in
  match AccessTokenRequest_Check env accessTokenRequest with
  | Some err => mret (c, Some err)
  | None =>
      '(accessTokenJson, err) ← postJson c (endpoint c "/accessToken")
                                  (PAccessToken accessTokenRequest);
      match err with
      | Some err => mret (c, Some err)
      | None =>
          match json_Unmarshal_string env (slice_or_empty accessTokenJson) with
          | Err err => mret (c, Some err)
          | Ok accessTokenString =>
              let '(decoded, err) := Base64.DecodeString accessTokenString in
              let c := with_accessToken (Some decoded) c in
              match err with
              | Some e => mret (c, Some (Base64Error e))
              | None =>
                  let file := AccessTokenFile (Client_Config c) in
                  if (0 <? String.length file)%nat then
                    err ← WriteFile file (bytes_of_string accessTokenString)
                            owner_only;
                    mret (c, err)
                  else mret (c, None)
              end
          end
      end
  end.

Definition filter_url : string := "https://vpn.hide.me:4321/filter".

Definition ApplyFilter (c : Client) : IO (option error) :=
  match Filter_Check env (Config_Filter (Client_Config c)) with
  | Some err => mret (Some err)
  | None =>
      '(response, err) ← postJson c filter_url
                           (PFilter (Config_Filter (Client_Config c)));
      if String.eqb (string_of_bytes (slice_or_empty response)) "false"
      then mret (Some (errors_New "filter failed"))
      else mret err
  end.

End Rest.

(** The error that the contract of the POST exchange gives a status: the
    update error for 403, none for 200, the status error otherwise. *)
Definition status_error (status : Z) : option error :=
  if status =? 403 then Some ErrAppUpdateRequired
  else if status =? 200 then None
  else Some ErrHttpStatusBad.

(** ** Request validation *)

(** Modelled from the spec: the method [Check] of [ConnectRequest], which
    package [rest] declares outside [client.go]. The spec has each request
    "self-validate required-field presence before being sent"; it "fails fast
    with a validation error if required fields — e.g., host, domain, token,
    key — are missing", and the access token of a connect request "may be
    absent". *)
Definition ConnectRequest_Check_spec (r : ConnectRequest) : option error :=
  if String.eqb (ConnectRequest_Host r) "" then Some (ValidationError "host")
  else if String.eqb (ConnectRequest_Domain r) ""
  then Some (ValidationError "domain")
  else if (length (ConnectRequest_PublicKey r) =? 0)%nat
  then Some (ValidationError "public key")
  else None.

Definition is_validation_error (e : option error) : bool :=
  match e with
  | Some (ValidationError _) => true
  | _ => false
  end.

(** ** A concrete environment

    The instances on which the theorems below are run: literal IPv4
    addresses for [net.ParseIP], JSON strings without escapes for
    [json.Unmarshal], and a world described by four answers. *)

Module Example.

(** A decimal octet without a leading zero. *)
Fixpoint digits (s : string) (acc : Z) : option Z :=
  match s with
  | EmptyString => Some acc
  | String ch r =>
      let d := Z.of_nat (nat_of_ascii ch) - 48 in
      if (0 <=? d) && (d <=? 9) then digits r (10 * acc + d) else None
  end.

Definition octet (s : string) : option Z :=
  match s with
  | EmptyString => None
  | String "0" (String _ _) => None
  | _ =>
      if (3 <? String.length s)%nat then None
      else match digits s 0 with
           | Some v => if v <=? 255 then Some v else None
           | None => None
           end
  end.

Definition v4InV6Prefix : bytes :=
  [x00; x00; x00; x00; x00; x00; x00; x00; x00; x00; xff; xff].

(** [net.ParseIP] on dotted-decimal text: the 16-byte form of the address;
    nil on anything else. *)
Definition ParseIPv4 (s : string) : IP :=
  match strings_Split s "."%char with
  | [a; b; c; d] =>
      match octet a, octet b, octet c, octet d with
      | Some a, Some b, Some c, Some d =>
          Some (v4InV6Prefix
                  ++ [byte_of_Z a; byte_of_Z b; byte_of_Z c; byte_of_Z d])
      | _, _, _, _ => None
      end
  | _ => None
  end.

Definition dotted (a b c d : byte) : string :=
  pretty (byte_val a) +:+ "." +:+ pretty (byte_val b) +:+ "."
    +:+ pretty (byte_val c) +:+ "." +:+ pretty (byte_val d).

Definition IPv4_String (ip : bytes) : string :=
  match skipn 12 ip with
  | [a; b; c; d] =>
      if (length ip =? 16)%nat then dotted a b c d else "?"
  | _ => "?"
  end.

Definition quote : ascii := ascii_of_nat 34.
Definition backslash : ascii := ascii_of_nat 92.

(** [json.Unmarshal] into a string, on a quoted text without escapes. *)
Definition unquote (data : bytes) : result string :=
  match string_of_bytes data with
  | String first r =>
      let n := String.length r in
      let inner := substring 0 (n - 1) r in
      if Ascii.eqb first quote
         && String.eqb (substring (n - 1) 1 r) (String quote EmptyString)
         && negb (existsb (λ ch, Ascii.eqb ch quote || Ascii.eqb ch backslash)
                          (list_ascii_of_string inner))
      then Ok inner
      else Err (ForeignError "invalid character looking for a string")
  | EmptyString => Err (ForeignError "unexpected end of JSON input")
  end.

(** The JSON text of a string without escapes. *)
Definition quoted (s : string) : bytes :=
  bytes_of_string (String quote s +:+ String quote EmptyString).

Record World := {
  files : string → result bytes;
  dns : list Event → string → result (list IPAddr);
  http : list Event → Request → result Response;
  setsockopt : option error
}.

(** The filter is a unit and a connect response is the body received. *)
Definition env_of (w : World) : @Env unit bytes := {|
  net_ParseIP := ParseIPv4;
  IP_String := IPv4_String;
  strings_TrimSpace := λ s, s;
  AppendCertsFromPEM := λ pem, ([pem], true);
  json_MarshalIndent := λ _, ([], None);
  json_Unmarshal_string := unquote;
  json_Unmarshal_ConnectResponse := λ body, (body, None);
  http_NewRequest := λ _, None;
  ConnectRequest_Check := ConnectRequest_Check_spec;
  DisconnectRequest_Check := λ _, None;
  AccessTokenRequest_Check := λ _, None;
  Filter_Check := λ _, None;
  os_ReadFile := λ _, files w;
  ioutil_WriteFile := λ _ _ _ _, None;
  resolver_LookupIPAddr := dns w;
  client_Do := http w;
  sys_socket := λ _ _ _, Ok 3;
  rawConn_closed := λ _ _, None;
  syscall_SetsockoptInt := λ _ _ _ _ _, setsockopt w;
  sys_connect := λ _ _ _, None;
  rand_Intn := λ _ _, 0
|}.

Definition no_such_file : error :=
  ForeignError "open: no such file or directory".
Definition no_such_host : error := ForeignError "lookup: no such host".
Definition unreachable : error := ForeignError "connect: network is unreachable".
Definition EPERM : error := ForeignError "operation not permitted".

(** A world without files, name service or server. *)
Definition silent : World := {|
  files := λ _, Err no_such_file;
  dns := λ _ _, Err no_such_host;
  http := λ _ _, Err unreachable;
  setsockopt := None
|}.

Definition config (host : string) (port mark : Z) (tokenFile : string)
  : @Config unit := {|
  APIVersion := "v1.0.0"; Host := host; Port := port; Domain := "hide.me";
  AccessTokenFile := tokenFile; Username := ""; Password := "";
  RestTimeout := 10 * Second; ReconnectWait := 30 * Second;
  AccessTokenUpdateDelay := 2 * Second; CA := ""; FirewallMark := mark;
  DnsServers := ""; Config_Filter := tt |}.

Definition with_files (f : string → result bytes) (w : World) : World :=
  {| files := f; dns := dns w; http := http w; setsockopt := setsockopt w |}.
Definition with_dns (d : list Event → string → result (list IPAddr))
  (w : World) : World :=
  {| files := files w; dns := d; http := http w; setsockopt := setsockopt w |}.
Definition with_http (s : list Event → Request → result Response)
  (w : World) : World :=
  {| files := files w; dns := dns w; http := s; setsockopt := setsockopt w |}.
Definition with_setsockopt (e : option error) (w : World) : World :=
  {| files := files w; dns := dns w; http := http w; setsockopt := e |}.

(** The client [NewClient] makes of a configuration without CA bundle,
    DNS servers or credential file. *)
Definition new_client (k : @Config unit) : @Client unit := {|
  Client_Config := k;
  transport := {|
    TLSHandshakeTimeout := Second * 5;
    DisableKeepAlives := true;
    ResponseHeaderTimeout := Second * 5;
    ForceAttemptHTTP2 := true;
    TLSClientConfig := {|
      NextProtos := ["h2"]; ServerName := "";
      MinVersion := VersionTLS13; RootCAs := None |} |};
  client_Timeout := RestTimeout k;
  dnsServers := ["1.1.1.1:53"];
  remote := None;
  accessToken := None;
  authorizedPins := pin_table |}.

Definition server_address : TCPAddr :=
  {| TCPAddr_IP := ParseIPv4 "203.0.113.9"; TCPAddr_Port := 432;
     TCPAddr_Zone := "" |}.

(** A name service that answers the first query and fails afterwards. *)
Definition flaky : World :=
  with_dns (λ h _,
              if existsb is_dns_query h then Err no_such_host
              else Ok [{| IPAddr_IP := ParseIPv4 "203.0.113.9";
                          IPAddr_Zone := "" |}])
           silent.

(** A name service that answers without any address. *)
Definition no_address : World := with_dns (λ _ _, Ok []) silent.

(** A server that answers every request with a status and a body. *)
Definition server (status : Z) (body : bytes) : World :=
  with_http (λ _ _, Ok {| StatusCode := status; ReadAll := (body, None) |})
            silent.

(** A kernel that refuses to mark sockets. *)
Definition mark_refused : World := with_setsockopt (Some EPERM) silent.

(** A file system with one file. *)
Definition one_file (name : string) (content : bytes) : World :=
  with_files (λ n, if String.eqb n name then Ok content else Err no_such_file)
             silent.

Definition key : Key :=
  {| key_bytes := repeat x01 32; key_len := eq_refl |}.

(** Two configurations: a server name, and the literal address of the
    example of the spec. *)
Definition nl : @Config unit := config "nl.hideservers.net" 432 0 "".
Definition literal : @Config unit := config "203.0.113.9" 432 0 "".

Fixpoint bytes_of_hex (fuel : nat) (s : string) : bytes :=
  match fuel, s with
  | S fuel', String a (String b r) =>
      byte_of_Z (Sha256.hex_value (String a (String b EmptyString)) 0)
        :: bytes_of_hex fuel' r
  | _, _ => []
  end.

(** The public-key info of the root "DigiCert Global Root CA", the 294
    bytes of its DER encoding. *)
Definition DigiCert_SPKI : bytes := Eval vm_compute in
  bytes_of_hex 294
    ("30820122300d06092a864886f70d01010105000382010f003082010a02820101" +:+
     "00e23be11172dea8a4d3a357aa50a28f0b7790c9a2a5ee12ce965b010920cc01" +:+
     "93a74e30b753f743c46900579de28d22dd870640008109cece1b83bfdfcd3b71" +:+
     "46e2d666c705b37627168f7b9e1e957deeb748a308dad6af7a0c3906657f4a5d" +:+
     "1fbc17f8abbeee28d7747f7a78995985686e5c23324bbf4ec0e85a6de370bf77" +:+
     "10bffc01f685d9a844105832a97518d5d1a2be47e2276af49a33f84908608bd4" +:+
     "5fb43a84bfa1aa4a4c7d3ecf4f5f6c765ea04b37919edc22e66dce141a8e6acb" +:+
     "fecdb3146417c75b299e32bff2eefad30b42d4abb74132da0cd4eff881d5bb8d" +:+
     "583fb51be84928a270da3104ddf7b216f24c0a4e07a8ed4a3d5eb57fa390c3af" +:+
     "270203010001").

(** The root itself, which signs itself. *)
Definition root : Certificate := {|
  IsCA := true;
  RawSubjectPublicKeyInfo := DigiCert_SPKI;
  Subject := {| CommonName := "DigiCert Global Root CA" |};
  Issuer := {| CommonName := "DigiCert Global Root CA" |} |}.

(** A CA certificate for the same key under another subject name, issued by
    the root. *)
Definition renamed : Certificate := {|
  IsCA := true;
  RawSubjectPublicKeyInfo := DigiCert_SPKI;
  Subject := {| CommonName := "Example Services CA" |};
  Issuer := {| CommonName := "DigiCert Global Root CA" |} |}.

(** The root under its own name, issued by another root. *)
Definition cross_signed : Certificate := {|
  IsCA := true;
  RawSubjectPublicKeyInfo := DigiCert_SPKI;
  Subject := {| CommonName := "DigiCert Global Root CA" |};
  Issuer := {| CommonName := "Example Trust Root" |} |}.

(** A CA certificate with a key of its own that the root issued. *)
Definition intermediate : Certificate := {|
  IsCA := true;
  RawSubjectPublicKeyInfo := bytes_of_string "another public key";
  Subject := {| CommonName := "Example Intermediate CA" |};
  Issuer := {| CommonName := "DigiCert Global Root CA" |} |}.

(** A server certificate. *)
Definition leaf : Certificate := {|
  IsCA := false;
  RawSubjectPublicKeyInfo := bytes_of_string "a server public key";
  Subject := {| CommonName := "any.hideservers.net" |};
  Issuer := {| CommonName := "DigiCert Global Root CA" |} |}.

End Example.

(** ** Observations on histories *)

Definition is_read_file (e : Event) : bool :=
  match e with
  | EvReadFile _ => true
  | _ => false
  end.

Definition is_println (e : Event) : bool :=
  match e with
  | EvPrintln _ => true
  | _ => false
  end.

Definition is_setsockopt (e : Event) : bool :=
  match e with
  | EvSetsockoptInt _ _ _ _ => true
  | _ => false
  end.

(** The address an event puts on the network, for the events of a dial. *)
Definition dialed_address (e : Event) : option string :=
  match e with
  | EvSocket _ addr | EvConnect _ addr => Some addr
  | _ => None
  end.

(** The end of a dial once the socket may be connected: what [connect]
    answered decides the result, and a socket that fails to connect is
    closed. *)
Definition connected (network target : string) (fd : Z) (r : option error)
  : result Z * list Event :=
  match r with
  | Some e => (Err (OpError "dial" network target e), [EvClose fd])
  | None => (Ok fd, [])
  end.

(** [has_comma s]: the separator of the list of DNS servers occurs in [s]. *)
Definition has_comma (s : string) : bool :=
  existsb (Ascii.eqb ","%char) (list_ascii_of_string s).

(** The 24 bits that [Encoding.Encode] makes of three bytes before it cuts
    them into four six-bit values. *)
Definition triple (x y z : Z) : Z :=
  Z.lor (Z.lor (Z.shiftl x 16) (Z.shiftl y 8)) z.

(** ** More concrete inputs *)

Module Fixtures.

Import Example.

(** A configuration with a CA bundle, a list of DNS servers and a
    credential file. *)
Definition full_config (ca servers tokenFile : string) (mark : Z)
  : @Config unit := {|
  APIVersion := "v1.0.0"; Host := "nl.hideservers.net"; Port := 0;
  Domain := "hide.me"; AccessTokenFile := tokenFile; Username := "";
  Password := ""; RestTimeout := 10 * Second; ReconnectWait := 30 * Second;
  AccessTokenUpdateDelay := 2 * Second; CA := ca; FirewallMark := mark;
  DnsServers := servers; Config_Filter := tt |}.

Definition EBADF : error := ForeignError "bad file descriptor".

(** The silent world with raw connections that are already closed. *)
Definition closed_sockets : @Env unit bytes := {|
  net_ParseIP := ParseIPv4;
  IP_String := IPv4_String;
  strings_TrimSpace := λ s, s;
  AppendCertsFromPEM := λ pem, ([pem], true);
  json_MarshalIndent := λ _, ([], None);
  json_Unmarshal_string := unquote;
  json_Unmarshal_ConnectResponse := λ body, (body, None);
  http_NewRequest := λ _, None;
  ConnectRequest_Check := ConnectRequest_Check_spec;
  DisconnectRequest_Check := λ _, None;
  AccessTokenRequest_Check := λ _, None;
  Filter_Check := λ _, None;
  os_ReadFile := λ _ _, Err no_such_file;
  ioutil_WriteFile := λ _ _ _ _, None;
  resolver_LookupIPAddr := λ _ _, Err no_such_host;
  client_Do := λ _ _, Err unreachable;
  sys_socket := λ _ _ _, Ok 3;
  rawConn_closed := λ _ _, Some EBADF;
  syscall_SetsockoptInt := λ _ _ _ _ _, None;
  sys_connect := λ _ _ _, None;
  rand_Intn := λ _ _, 0
|}.

(** A token endpoint that answers with the JSON string [QUJD], and a file
    system in which the credential file reads [QUJD]. *)
Definition token_world : World :=
  with_files (λ n, if String.eqb n "accessToken.txt"
                   then Ok (bytes_of_string "QUJD") else Err no_such_file)
             (server 200 (quoted "QUJD")).

Definition nl_with_file : @Config unit :=
  config "nl.hideservers.net" 432 0 "accessToken.txt".

(** A line feed. *)
Definition LF : string := String (ascii_of_nat 10) EmptyString.

End Fixtures.

(** * The library models on known vectors *)

Module Vectors.

Definition digest64 (s : string) : string :=
  Base64.EncodeToString (Sha256.Sum256 (bytes_of_string s)).

Fixpoint string_repeat (ch : ascii) (n : nat) : string :=
  match n with
  | O => EmptyString
  | S n' => String ch (string_repeat ch n')
  end.

(** FIPS 180-4: the empty message, "abc", and the message of two blocks;
    then messages around the length at which the padding takes one block
    more. *)
Example Sum256_empty :
  digest64 "" = "47DEQpj8HBSa+/TImW+5JCeuQeRkm5NMpJWZG3hSuFU=".
Proof. vm_compute. reflexivity. Qed.

Example Sum256_abc :
  digest64 "abc" = "ungWv48Bz+pBQUDeXa4iI7ADYaOWF3qctBD/YfIAFa0=".
Proof. vm_compute. reflexivity. Qed.

Example Sum256_two_blocks :
  digest64 "abcdbcdecdefdefgefghfghighijhijkijkljklmklmnlmnomnopnopq"
    = "JI1qYdIGOLjlwCaTDD5gOaM85Flk/yFn9uzt1BnbBsE=".
Proof. vm_compute. reflexivity. Qed.

Example Sum256_padding :
  map (λ n, digest64 (string_repeat "a" n)) [55; 56; 64]%nat
    = ["n0OQ+NMMLdkuyfCVtl4rmumwqSWlJY4kHJ8ekQ9zQxg=";
       "s1Q5pKxvCUi21vnjxq8PX1kM4g8b3nCQ73lwaG7Gc4o=";
       "/+BU/nrgy23GXDr5th1SCfQ5hR20PQulmXM33xVGaOs="].
Proof. vm_compute. reflexivity. Qed.

(** RFC 4648, section 10. *)
Example base64_encode :
  map (λ s, Base64.EncodeToString (bytes_of_string s))
      [""; "f"; "fo"; "foo"; "foob"; "fooba"; "foobar"]
    = [""; "Zg=="; "Zm8="; "Zm9v"; "Zm9vYg=="; "Zm9vYmE="; "Zm9vYmFy"].
Proof. reflexivity. Qed.

Definition decoded (s : string) : string * option Base64.CorruptInputError :=
  (string_of_bytes (fst (Base64.DecodeString s)), snd (Base64.DecodeString s)).

Example base64_decode :
  map decoded [""; "Zg=="; "Zm8="; "Zm9v"; "Zm9vYg=="; "Zm9vYmE="; "Zm9vYmFy"]
    = map (λ s, (s, None)) [""; "f"; "fo"; "foo"; "foob"; "fooba"; "foobar"].
Proof. reflexivity. Qed.

(** Malformed inputs: the bytes decoded before the error are returned with
    it; padding that is missing, cut short or followed by something is an
    error at the offset [DecodeString] reports. *)
Example base64_malformed :
  map decoded ["QUJD!"; "!"; "QUJDRA"; "QQ="; "Q==="; "QQ=x"; "QUJDQQ==QUJD"]
    = [("ABC", Some (Base64.Corrupt 4)); ("", Some (Base64.Corrupt 0));
       ("ABC", Some (Base64.Corrupt 4)); ("", Some (Base64.Corrupt 3));
       ("", Some (Base64.Corrupt 1)); ("", Some (Base64.Corrupt 2));
       ("ABCA", Some (Base64.Corrupt 8))].
Proof. reflexivity. Qed.

(** New lines are skipped. *)
Example base64_newlines :
  decoded (String (ascii_of_nat 10) "QU" +:+ String (ascii_of_nat 13) "JD"
             +:+ String (ascii_of_nat 10) EmptyString)
    = ("ABC", None).
Proof. reflexivity. Qed.

End Vectors.

(** * Properties *)

(** Unfolds the monad of [IO] down to pairs of a value and a history. *)
Ltac io_unfold :=
  unfold LookupIPAddr, Do, ReadFile, WriteFile, SetsockoptInt, Println in *;
  unfold mbind, mret, IO_bind, IO_ret, call, emit in *;
  cbv beta zeta in *.

Section Resolution.

Context {rest_Filter ConnectResponse : Type}.
Variable env : @Env rest_Filter ConnectResponse.
Implicit Types (c : @Client rest_Filter) (h : list Event).

(** [Resolve] touches nothing but the stored address and the server name. *)
Lemma Resolve_frame c h :
  let c' := fst (fst (Resolve env c h)) in
  Client_Config c' = Client_Config c
  ∧ accessToken c' = accessToken c
  ∧ authorizedPins c' = authorizedPins c
  ∧ dnsServers c' = dnsServers c.
Proof.
  unfold Resolve. io_unfold.
  destruct (net_ParseIP env (Host (Client_Config c))); [done |].
  destruct (resolver_LookupIPAddr env h (Host (Client_Config c)))
    as [[| [[ip |] zone] rest] | err]; simpl; try done.
  by destruct (remote c).
Qed.

(** C8. When the configured host parses as a literal IP address, [Resolve]
    succeeds and adds no event to the history, so no DNS query is made; the
    stored remote address is that IP with the configured port, and the TLS
    server name is "hideservers.net". *)
Theorem Resolve_literal_IP c h ip :
  net_ParseIP env (Host (Client_Config c)) = Some ip →
  ∃ c',
    Resolve env c h = ((c', None), h)
    ∧ remote c' = Some {| TCPAddr_IP := Some ip;
                          TCPAddr_Port := Port (Client_Config c);
                          TCPAddr_Zone := "" |}
    ∧ Client_ServerName c' = "hideservers.net".
Proof.
  intros Hip. unfold Resolve. rewrite Hip.
  eexists. split; [reflexivity |]. split; reflexivity.
Qed.

(** C2. On a host that is not a literal address, when the DNS lookup fails:
    a client that holds a remote address [R] keeps it, nothing of the client
    changes, and [Resolve] returns a nil error; a client that holds none gets
    the error of the lookup. *)
Theorem Resolve_lookup_failure c h err :
  net_ParseIP env (Host (Client_Config c)) = None →
  resolver_LookupIPAddr env h (Host (Client_Config c)) = Err err →
  let '((c', e), _) := Resolve env c h in
  c' = c
  ∧ match remote c with
    | Some R => e = None ∧ remote c' = Some R
    | None => e = Some err
    end.
Proof.
  intros Hip Hdns. unfold Resolve. io_unfold. rewrite Hip, Hdns.
  destruct (remote c) as [R |] eqn:HR; simpl; rewrite ?HR; auto.
Qed.

(** C9. On a host that is not a literal address, when the DNS lookup
    succeeds with no address, or with a first address whose IP is nil,
    [Resolve] returns an error that names the host and leaves the client as
    it was: the stored remote address and the TLS server name are
    unchanged. *)
Theorem Resolve_empty_answer c h addrs :
  net_ParseIP env (Host (Client_Config c)) = None →
  resolver_LookupIPAddr env h (Host (Client_Config c)) = Ok addrs →
  (addrs = [] ∨ ∃ first rest, addrs = first :: rest ∧ IPAddr_IP first = None) →
  ∃ text,
    Resolve env c h
      = ((c, Some (errors_New (text +:+ Host (Client_Config c)))),
         h ++ [EvLookupIPAddr (Host (Client_Config c))])
    ∧ (text = "dns lookup failed for " ∨ text = "no IP found for ").
Proof.
  intros Hip Hdns Hans. unfold Resolve. io_unfold. rewrite Hip, Hdns.
  destruct Hans as [-> | (first & rest & -> & Hnil)].
  - exists "dns lookup failed for ". split; [reflexivity | by left].
  - rewrite Hnil. exists "no IP found for ". split; [reflexivity | by right].
Qed.

(** The last case of [Resolve]: a first address with an IP is stored, with
    the configured port, and the host becomes the TLS server name. *)
Theorem Resolve_first_address c h first rest ip :
  net_ParseIP env (Host (Client_Config c)) = None →
  resolver_LookupIPAddr env h (Host (Client_Config c)) = Ok (first :: rest) →
  IPAddr_IP first = Some ip →
  let '((c', e), _) := Resolve env c h in
  e = None
  ∧ remote c' = Some {| TCPAddr_IP := Some ip;
                        TCPAddr_Port := Port (Client_Config c);
                        TCPAddr_Zone := "" |}
  ∧ Client_ServerName c' = Host (Client_Config c).
Proof.
  intros Hip Hdns Hfirst. unfold Resolve. io_unfold.
  rewrite Hip, Hdns, Hfirst. simpl. auto.
Qed.

End Resolution.

Section Exchange.

Context {rest_Filter ConnectResponse : Type}.
Variable env : @Env rest_Filter ConnectResponse.
Implicit Types (c : @Client rest_Filter) (h : list Event)
  (object : @Payload rest_Filter) (response : Response).

(** What [postJson] returns once the server has answered. *)
Lemma postJson_answered c h url object response :
  answers env h url object response →
  fst (postJson env c url object h) =
    match status_error (StatusCode response) with
    | Some err => (None, Some err)
    | None => (Some (fst (ReadAll response)), snd (ReadAll response))
    end.
Proof.
  intros (body & Hbody & Hreq & Hdo).
  unfold postJson, status_error. rewrite Hbody, Hreq. io_unfold.
  rewrite Hdo. unfold StatusForbidden, StatusOK.
  destruct (StatusCode response =? 403); [reflexivity |].
  destruct (StatusCode response =? 200); reflexivity.
Qed.

(** Every event [postJson] adds is the exchange or a diagnostic: one HTTP
    exchange at most, and nothing before the request is made. *)
Lemma postJson_history c h url object :
  snd (postJson env c url object h) = h
  ∨ ∃ body log,
      snd (postJson env c url object h)
        = h ++ EvHttpDo (post_request url body) :: log
      ∧ forallb (λ e, negb (is_network e)) log = true.
Proof.
  unfold postJson. destruct (json_MarshalIndent env object) as [body [e |]];
    [by left |].
  destruct (http_NewRequest env url); [by left |].
  right. exists body. io_unfold.
  destruct (client_Do env h (post_request url body)) as [response | e].
  - destruct (StatusCode response =? StatusForbidden); simpl.
    + eexists [_]. by rewrite <- app_assoc.
    + destruct (StatusCode response =? StatusOK); simpl.
      * by exists [].
      * eexists [_]. by rewrite <- app_assoc.
  - by exists [].
Qed.

(** C7. Once the server has answered the POST of any object to any URL: a
    status 403 gives the error [ErrAppUpdateRequired], which is not the
    status error; any other status than 200 gives [ErrHttpStatusBad]; a
    status 200 gives the body as it was read, for the operation to decode. *)
Theorem postJson_status c h url object response :
  answers env h url object response →
  (StatusCode response = 403 →
     fst (postJson env c url object h) = (None, Some ErrAppUpdateRequired))
  ∧ (StatusCode response ≠ 403 → StatusCode response ≠ 200 →
       fst (postJson env c url object h) = (None, Some ErrHttpStatusBad))
  ∧ (StatusCode response = 200 →
       fst (postJson env c url object h)
         = (Some (fst (ReadAll response)), snd (ReadAll response)))
  ∧ ErrAppUpdateRequired ≠ ErrHttpStatusBad.
Proof.
  intros Hans. pose proof (postJson_answered c h url object response Hans) as H.
  unfold status_error in H. repeat split.
  - intros H403. rewrite H403 in H. exact H.
  - intros H403 H200. rewrite H.
    destruct (Z.eqb_spec (StatusCode response) 403); [done |].
    by destruct (Z.eqb_spec (StatusCode response) 200).
  - intros H200. rewrite H200 in H. exact H.
  - discriminate.
Qed.

(** The four operations hand the error of the exchange to their caller. *)
Lemma Connect_status c key h response err :
  ConnectRequest_Check env (connect_request c key) = None →
  answers env h (endpoint env c "/connect") (PConnect (connect_request c key))
    response →
  status_error (StatusCode response) = Some err →
  fst (Connect env c key h) = (None, Some err).
Proof.
  intros Hcheck Hans Herr.
  pose proof (postJson_answered c h _ _ response Hans) as H.
  rewrite Herr in H. unfold Connect. rewrite Hcheck. io_unfold.
  destruct (postJson env c _ _ h) as [[body e] h']. simpl in H.
  by injection H as -> ->.
Qed.

Lemma Disconnect_status c sessionToken h response err :
  DisconnectRequest_Check env (disconnect_request c sessionToken) = None →
  answers env h (endpoint env c "/disconnect")
    (PDisconnect (disconnect_request c sessionToken)) response →
  status_error (StatusCode response) = Some err →
  fst (Disconnect env c sessionToken h) = Some err.
Proof.
  intros Hcheck Hans Herr.
  pose proof (postJson_answered c h _ _ response Hans) as H.
  rewrite Herr in H. unfold Disconnect. rewrite Hcheck. io_unfold.
  destruct (postJson env c _ _ h) as [[body e] h']. simpl in H.
  by injection H as -> ->.
Qed.

Lemma GetAccessToken_status c h response err :
  AccessTokenRequest_Check env (accessToken_request c) = None →
  answers env h (endpoint env c "/accessToken")
    (PAccessToken (accessToken_request c)) response →
  status_error (StatusCode response) = Some err →
  fst (GetAccessToken env c h) = (c, Some err).
Proof.
  intros Hcheck Hans Herr.
  pose proof (postJson_answered c h _ _ response Hans) as H.
  rewrite Herr in H. unfold GetAccessToken. rewrite Hcheck. io_unfold.
  destruct (postJson env c _ _ h) as [[body e] h']. simpl in H.
  by injection H as -> ->.
Qed.

Lemma ApplyFilter_status c h response err :
  Filter_Check env (Config_Filter (Client_Config c)) = None →
  answers env h filter_url (PFilter (Config_Filter (Client_Config c)))
    response →
  status_error (StatusCode response) = Some err →
  fst (ApplyFilter env c h) = Some err.
Proof.
  intros Hcheck Hans Herr.
  pose proof (postJson_answered c h _ _ response Hans) as H.
  rewrite Herr in H. unfold ApplyFilter. rewrite Hcheck. io_unfold.
  destruct (postJson env c _ _ h) as [[body e] h']. simpl in H.
  by injection H as -> ->.
Qed.

(** The four operations return the error of a status that is not 200: the
    update error for 403, the status error otherwise. *)
Theorem operations_status c h response err :
  status_error (StatusCode response) = Some err →
  (∀ key,
     ConnectRequest_Check env (connect_request c key) = None →
     answers env h (endpoint env c "/connect")
       (PConnect (connect_request c key)) response →
     fst (Connect env c key h) = (None, Some err))
  ∧ (∀ sessionToken,
       DisconnectRequest_Check env (disconnect_request c sessionToken) = None →
       answers env h (endpoint env c "/disconnect")
         (PDisconnect (disconnect_request c sessionToken)) response →
       fst (Disconnect env c sessionToken h) = Some err)
  ∧ (AccessTokenRequest_Check env (accessToken_request c) = None →
     answers env h (endpoint env c "/accessToken")
       (PAccessToken (accessToken_request c)) response →
     fst (GetAccessToken env c h) = (c, Some err))
  ∧ (Filter_Check env (Config_Filter (Client_Config c)) = None →
     answers env h filter_url (PFilter (Config_Filter (Client_Config c)))
       response →
     fst (ApplyFilter env c h) = Some err).
Proof.
  intros Herr. repeat split; intros.
  - by apply (Connect_status c key h response).
  - by apply (Disconnect_status c sessionToken h response).
  - by apply (GetAccessToken_status c h response).
  - by apply (ApplyFilter_status c h response).
Qed.

(** C10. When the filter passes its own check and the server answers the
    POST of the filter with status 200 and the body "false", [ApplyFilter]
    returns the error "filter failed". *)
Theorem ApplyFilter_false_body c h response :
  Filter_Check env (Config_Filter (Client_Config c)) = None →
  answers env h filter_url (PFilter (Config_Filter (Client_Config c)))
    response →
  StatusCode response = 200 →
  string_of_bytes (fst (ReadAll response)) = "false" →
  fst (ApplyFilter env c h) = Some (errors_New "filter failed").
Proof.
  intros Hcheck Hans H200 Hbody.
  pose proof (postJson_answered c h _ _ response Hans) as H.
  rewrite H200 in H. unfold ApplyFilter. rewrite Hcheck. io_unfold.
  destruct (postJson env c _ _ h) as [[body e] h']. simpl in H.
  injection H as -> ->. simpl. by rewrite Hbody.
Qed.

End Exchange.

Section Pinning.

Context {rest_Filter : Type}.
Implicit Types (c : @Client rest_Filter) (h : list Event)
  (chain : list Certificate) (chains : list (list Certificate)).

(** The loop over the table finds an entry exactly when the pair is one of
    the entries, in whatever order the entries come. *)
Lemma pin_listed_elem entries cn pin :
  pin_listed entries cn pin = true ↔ (cn, pin) ∈ entries.
Proof.
  induction entries as [| [name authorizedPin] rest IH]; simpl.
  - split; [discriminate | intros H; inversion H].
  - destruct (String.eqb_spec cn name) as [-> | Hname];
      destruct (String.eqb_spec pin authorizedPin) as [-> | Hpin]; simpl;
      rewrite ?IH, elem_of_cons;
      try (split; [by right | intros [[=] |]; done]).
    split; [by left | done].
Qed.

Lemma pin_listed_Permutation entries entries' cn pin :
  entries ≡ₚ entries' →
  pin_listed entries cn pin = pin_listed entries' cn pin.
Proof.
  intros Hperm. apply eq_true_iff_eq.
  rewrite !pin_listed_elem. by rewrite Hperm.
Qed.

(** On the table of the client the loop is a lookup. *)
Lemma pin_listed_table c certificate :
  pin_listed (map_to_list (authorizedPins c))
    (CommonName (Subject certificate)) (certificate_pin certificate) = true
  ↔ subject_pinned c certificate.
Proof. rewrite pin_listed_elem. apply elem_of_map_to_list. Qed.

(** A chain whose CA certificates are pinned lets [Pins] go on. *)
Lemma Pins_chain_pass c chain h :
  (∀ certificate, certificate ∈ chain → IsCA certificate = true →
     subject_pinned c certificate) →
  fst (Pins_chain c chain h) = None.
Proof.
  revert h. induction chain as [| certificate rest IH]; intros h Hall;
    [reflexivity |].
  simpl. destruct (IsCA certificate) eqn:HCA; simpl.
  - assert (subject_pinned c certificate) as Hpin
      by (apply Hall; [left | done]).
    apply pin_listed_table in Hpin. rewrite Hpin. io_unfold.
    apply IH. intros. apply Hall; [by right | done].
  - apply IH. intros. apply Hall; [by right | done].
Qed.

Lemma Pins_chains_pass c chains h :
  every_CA (subject_pinned c) chains →
  fst (Pins_chains c chains h) = None.
Proof.
  revert h. induction chains as [| chain rest IH]; intros h Hall;
    [reflexivity |].
  simpl. io_unfold.
  pose proof (Pins_chain_pass c chain h) as Hchain.
  destruct (Pins_chain c chain h) as [r h']. simpl in Hchain.
  rewrite Hchain.
  - apply IH. intros ch cert Hch. apply Hall. by right.
  - intros cert Hcert. apply (Hall chain); [left | done].
Qed.

(** A CA certificate that is not pinned ends the loop over its chain with
    the error, whatever follows it in the chain. *)
Lemma Pins_chain_fail_fast c before bad after h :
  IsCA bad = true → ¬ subject_pinned c bad →
  Pins_chain c (before ++ bad :: after) h = Pins_chain c (before ++ [bad]) h
  ∧ fst (Pins_chain c (before ++ bad :: after) h) = Some ErrBadPin.
Proof.
  intros HCA Hbad. revert h.
  induction before as [| certificate rest IH]; intros h; simpl.
  - rewrite HCA. simpl.
    destruct (pin_listed _ _ _) eqn:Hlisted.
    + by apply pin_listed_table in Hlisted.
    + done.
  - destruct (IsCA certificate); simpl; [| apply IH].
    destruct (pin_listed _ _ _); [| done]. io_unfold. apply IH.
Qed.

(** The only error of the loop is the pin error. *)
Lemma Pins_chain_error c chain h err :
  fst (Pins_chain c chain h) = Some err → err = ErrBadPin.
Proof.
  revert h. induction chain as [| certificate rest IH]; intros h; simpl;
    [discriminate |].
  destruct (IsCA certificate); simpl; [| apply IH].
  destruct (pin_listed _ _ _); io_unfold; [apply IH |].
  simpl. congruence.
Qed.

Lemma Pins_chains_fail_fast c earlier before bad after later h :
  IsCA bad = true → ¬ subject_pinned c bad →
  Pins_chains c (earlier ++ (before ++ bad :: after) :: later) h
    = Pins_chains c (earlier ++ [before ++ [bad]]) h
  ∧ fst (Pins_chains c (earlier ++ (before ++ bad :: after) :: later) h)
      = Some ErrBadPin.
Proof.
  intros HCA Hbad. revert h.
  induction earlier as [| chain rest IH]; intros h; simpl; io_unfold.
  - destruct (Pins_chain_fail_fast c before bad after h HCA Hbad) as [-> Hr].
    destruct (Pins_chain c (before ++ [bad]) h) as [r h']. simpl in Hr.
    by rewrite Hr.
  - pose proof (Pins_chain_error c chain h) as Herr.
    destruct (Pins_chain c chain h) as [[err |] h']; [| apply IH].
    simpl in Herr. by rewrite (Herr err eq_refl).
Qed.

(** Certificates that are not CA certificates do not count: [Pins] does
    the same, diagnostics included, once they are taken out. *)
Lemma Pins_chain_leaves c chain h :
  Pins_chain c chain h = Pins_chain c (List.filter IsCA chain) h.
Proof.
  revert h. induction chain as [| certificate rest IH]; intros h;
    [reflexivity |].
  simpl. destruct (IsCA certificate) eqn:HCA; simpl; [| apply IH].
  rewrite HCA. simpl.
  destruct (pin_listed _ _ _); [| done]. io_unfold. apply IH.
Qed.

Lemma Pins_chains_leaves c chains h :
  Pins_chains c chains h = Pins_chains c (map (List.filter IsCA) chains) h.
Proof.
  revert h. induction chains as [| chain rest IH]; intros h; [reflexivity |].
  simpl. io_unfold. rewrite <- Pins_chain_leaves.
  destruct (Pins_chain c chain h) as [[err |] h']; [done | apply IH].
Qed.

Lemma every_CA_Forall (P : Certificate → Prop) chains :
  Forall (Forall (λ certificate, IsCA certificate = true → P certificate))
         chains →
  every_CA P chains.
Proof.
  intros Hall chain certificate Hchain Hcert.
  rewrite Forall_forall in Hall. specialize (Hall chain Hchain).
  rewrite Forall_forall in Hall. by apply Hall.
Qed.

(** C1, with the common name of the subject where the claim has that of the
    issuer. [Pins] returns nil when every CA certificate of every chain has
    the pair of its subject common name and of the base64 SHA-256 digest
    of its raw public-key info in the table. It returns [ErrBadPin] as soon
    as a CA certificate has a pair that is not in the table: what follows
    the certificate in its chain and the later chains change nothing, not
    even the diagnostics. Certificates that are not
    CA certificates are never checked. *)
Theorem Pins_subject_pin c rawCerts chains h :
  (every_CA (subject_pinned c) chains →
     fst (Pins c rawCerts chains h) = None)
  ∧ (∀ earlier before bad after later,
       chains = earlier ++ (before ++ bad :: after) :: later →
       IsCA bad = true → ¬ subject_pinned c bad →
       Pins c rawCerts chains h
         = Pins c rawCerts (earlier ++ [before ++ [bad]]) h
       ∧ fst (Pins c rawCerts chains h) = Some ErrBadPin)
  ∧ Pins c rawCerts chains h
      = Pins c rawCerts (map (List.filter IsCA) chains) h.
Proof.
  unfold Pins. split; [apply Pins_chains_pass |]. split.
  - intros earlier before bad after later ->.
    apply Pins_chains_fail_fast.
  - apply Pins_chains_leaves.
Qed.

End Pinning.

Section Dialing.

Context {rest_Filter ConnectResponse : Type}.
Variable env : @Env rest_Filter ConnectResponse.
Implicit Types (c : @Client rest_Filter) (h : list Event).

(** [dialContext] is the dial of the dialer it configures, on the address
    that [dials] describes. *)
Lemma dialContext_dials c network addr h target h1 :
  dials env c network addr h target h1 →
  dialContext env c network addr h =
    let '(r, h2) :=
      Dialer_DialContext env
        {| Control := if 0 <? FirewallMark (Client_Config c)
                      then Some (mark_hook env c) else None |}
        network target h1 in
    (Returns r, h2).
Proof.
  unfold dials, dialContext.
  destruct (String.eqb network "udp").
  - intros (Hn & Hi & Hserver & ->). io_unfold.
    destruct (Z.leb_spec (Z.of_nat (length (dnsServers c))) 0); [lia |].
    destruct (Z.ltb_spec (rand_Intn env h (Z.of_nat (length (dnsServers c)))) 0);
      [lia |].
    rewrite Hserver.
    by destruct (Dialer_DialContext env _ network target _).
  - intros [-> ->]. io_unfold.
    by destruct (Dialer_DialContext env _ network addr h).
Qed.

(** The hook returns the error of [SetsockoptInt], after it has logged
    it. *)
Lemma mark_hook_failure c network addr fd h e :
  rawConn_closed env h fd = None →
  syscall_SetsockoptInt env (h ++ [EvRawControl fd]) fd SOL_SOCKET SO_MARK
    (FirewallMark (Client_Config c)) = Some e →
  mark_hook env c network addr fd h =
    (Some e,
     h ++ [EvRawControl fd;
           EvSetsockoptInt fd SOL_SOCKET SO_MARK
             (FirewallMark (Client_Config c));
           EvPrintln ("Dial: [ERR] Set mark failed, " +:+ Error e)]).
Proof.
  intros Hopen Hset. unfold mark_hook, RawConn_Control. io_unfold.
  rewrite Hopen, Hset. simpl. by rewrite <- !app_assoc.
Qed.

(** The hook returns nil when the mark is set, and also when
    [rawConn.Control] fails: that error is the one the hook drops. *)
Lemma mark_hook_success c network addr fd h :
  rawConn_closed env h fd = None →
  syscall_SetsockoptInt env (h ++ [EvRawControl fd]) fd SOL_SOCKET SO_MARK
    (FirewallMark (Client_Config c)) = None →
  fst (mark_hook env c network addr fd h) = None.
Proof.
  intros Hopen Hset. unfold mark_hook, RawConn_Control. io_unfold.
  by rewrite Hopen, Hset.
Qed.

Lemma mark_hook_control_error_dropped c network addr fd h e :
  rawConn_closed env h fd = Some e →
  mark_hook env c network addr fd h = (None, h ++ [EvRawControl fd]).
Proof.
  intros Hclosed. unfold mark_hook, RawConn_Control. io_unfold.
  by rewrite Hclosed.
Qed.

(** C4, as the code has it. With a positive firewall mark, when the socket
    is made and [SetsockoptInt] fails on it, the failure is logged and it
    is also the result of the hook [Control]: the dial ends there, the
    socket is closed without any attempt to connect, and the caller of
    [dialContext] gets the error of [SetsockoptInt] inside the error of
    the dial. *)
Theorem dialContext_mark_failure c network addr h target h1 fd e :
  0 < FirewallMark (Client_Config c) →
  dials env c network addr h target h1 →
  sys_socket env h1 network target = Ok fd →
  rawConn_closed env (h1 ++ [EvSocket network target]) fd = None →
  syscall_SetsockoptInt env
    (h1 ++ [EvSocket network target; EvRawControl fd])
    fd SOL_SOCKET SO_MARK (FirewallMark (Client_Config c)) = Some e →
  dialContext env c network addr h =
    (Returns (Err (OpError "dial" network target e)),
     h1 ++ [EvSocket network target;
            EvRawControl fd;
            EvSetsockoptInt fd SOL_SOCKET SO_MARK
              (FirewallMark (Client_Config c));
            EvPrintln ("Dial: [ERR] Set mark failed, " +:+ Error e);
            EvClose fd]).
Proof.
  intros Hmark Hdials Hsocket Hopen Hset.
  rewrite (dialContext_dials c network addr h target h1 Hdials).
  destruct (Z.ltb_spec 0 (FirewallMark (Client_Config c))); [| lia].
  unfold Dialer_DialContext. io_unfold. rewrite Hsocket. simpl.
  rewrite (mark_hook_failure c network target fd _ e Hopen).
  - simpl. by rewrite <- !app_assoc.
  - by rewrite <- app_assoc.
Qed.

(** Without a positive mark no hook is installed: the socket is connected
    right after it is made. *)
Lemma dialContext_no_mark c network addr h target h1 fd :
  FirewallMark (Client_Config c) ≤ 0 →
  dials env c network addr h target h1 →
  sys_socket env h1 network target = Ok fd →
  ∃ r log,
    dialContext env c network addr h
      = (Returns r,
         h1 ++ EvSocket network target :: EvConnect fd target :: log).
Proof.
  intros Hmark Hdials Hsocket.
  rewrite (dialContext_dials c network addr h target h1 Hdials).
  destruct (Z.ltb_spec 0 (FirewallMark (Client_Config c))); [lia |].
  unfold Dialer_DialContext. io_unfold. rewrite Hsocket. simpl.
  destruct (sys_connect env _ fd target); simpl.
  - eexists _, [_]. by rewrite <- !app_assoc.
  - eexists _, []. by rewrite <- !app_assoc.
Qed.

End Dialing.

Section Credential.

Context {rest_Filter ConnectResponse : Type}.
Variable env : @Env rest_Filter ConnectResponse.
Implicit Types (c : @Client rest_Filter) (h : list Event)
  (config : @Config rest_Filter).

Lemma nonempty_len (s : string) :
  s ≠ "" → (0 <? String.length s)%nat = true.
Proof. by destruct s. Qed.

(** [DecodeString] never returns a nil slice: a credential that is assigned
    its result is present. *)
Lemma with_accessToken_present c decoded :
  HaveAccessToken (with_accessToken (Some decoded) c) = true.
Proof. reflexivity. Qed.

(** What [NewClient] returns once the root CAs are settled. *)
Lemma NewClient_roots config h roots h1 :
  load_RootCAs env config h = (Ok roots, h1) →
  ∃ c,
    NewClient env config h
      = ((Some c, None),
         snd (load_accessToken env config h1))
    ∧ accessToken c = fst (load_accessToken env config h1).
Proof.
  intros Hroots. unfold NewClient. io_unfold.
  assert (∀ k : @Config rest_Filter,
            load_RootCAs env (with_Port 432 k) = load_RootCAs env k) as Hport
    by reflexivity.
  assert (∀ k : @Config rest_Filter,
            load_accessToken env (with_Port 432 k) = load_accessToken env k)
    as Hport' by reflexivity.
  destruct (Port config =? 0); rewrite ?Hport, ?Hport', Hroots;
    destruct (load_accessToken env config h1) as [token h2];
    eexists; split; reflexivity.
Qed.

(** The defaults of [NewClient]: the port 432 for a port 0, one public DNS
    server when none is configured, no remote address, an empty TLS server
    name, and the table of pins. *)
Theorem NewClient_defaults config h roots h1 :
  load_RootCAs env config h = (Ok roots, h1) →
  ∃ c,
    fst (NewClient env config h) = (Some c, None)
    ∧ Port (Client_Config c) = (if Port config =? 0 then 432 else Port config)
    ∧ (DnsServers config = "" → dnsServers c = ["1.1.1.1:53"])
    ∧ remote c = None
    ∧ Client_ServerName c = ""
    ∧ authorizedPins c = pin_table.
Proof.
  intros Hroots. unfold NewClient. io_unfold.
  assert (∀ k : @Config rest_Filter,
            load_RootCAs env (with_Port 432 k) = load_RootCAs env k) as Hport
    by reflexivity.
  destruct (Port config =? 0) eqn:Hzero; rewrite ?Hport, Hroots;
    destruct (load_accessToken env _ h1) as [token h2];
    eexists; (split; [reflexivity |]); simpl;
    (repeat split; try done); by intros ->.
Qed.

(** C5, the part that holds: a credential file that cannot be read leaves
    the credential absent, and the construction succeeds. *)
Theorem NewClient_unreadable_token_file config h roots h1 err :
  load_RootCAs env config h = (Ok roots, h1) →
  AccessTokenFile config ≠ "" →
  os_ReadFile env h1 (AccessTokenFile config) = Err err →
  ∃ c,
    fst (NewClient env config h) = (Some c, None)
    ∧ HaveAccessToken c = false.
Proof.
  intros Hroots Hfile Hread.
  destruct (NewClient_roots config h roots h1 Hroots) as (c & -> & Htoken).
  exists c. split; [reflexivity |].
  unfold HaveAccessToken. rewrite Htoken.
  unfold load_accessToken. rewrite (nonempty_len _ Hfile). io_unfold.
  by rewrite Hread.
Qed.

(** C5, what the code does with a file that can be read: the credential is
    the result of [DecodeString], whose error is dropped. When the content
    is not valid base64 the credential is therefore present and holds the
    bytes decoded before the error: [HaveAccessToken] reports true. *)
Theorem NewClient_stores_decoded_file config h roots h1 content :
  load_RootCAs env config h = (Ok roots, h1) →
  AccessTokenFile config ≠ "" →
  os_ReadFile env h1 (AccessTokenFile config) = Ok content →
  ∃ c,
    fst (NewClient env config h) = (Some c, None)
    ∧ accessToken c
        = Some (fst (Base64.DecodeString (string_of_bytes content)))
    ∧ HaveAccessToken c = true.
Proof.
  intros Hroots Hfile Hread.
  destruct (NewClient_roots config h roots h1 Hroots) as (c & -> & Htoken).
  exists c. split; [reflexivity |].
  unfold HaveAccessToken. rewrite Htoken.
  unfold load_accessToken. rewrite (nonempty_len _ Hfile). io_unfold.
  by rewrite Hread.
Qed.

(** C3, what the code does: when the exchange succeeds with status 200 and
    a JSON string that is not valid base64, [GetAccessToken] returns the
    decode error, and by then the credential has been assigned the bytes
    decoded before the error, so that it is present whatever it was
    before. *)
Theorem GetAccessToken_decode_error c h response text decoded e :
  AccessTokenRequest_Check env (accessToken_request c) = None →
  answers env h (endpoint env c "/accessToken")
    (PAccessToken (accessToken_request c)) response →
  StatusCode response = 200 →
  snd (ReadAll response) = None →
  json_Unmarshal_string env (fst (ReadAll response)) = Ok text →
  Base64.DecodeString text = (decoded, Some e) →
  fst (GetAccessToken env c h)
    = (with_accessToken (Some decoded) c, Some (Base64Error e))
  ∧ HaveAccessToken (fst (fst (GetAccessToken env c h))) = true.
Proof.
  intros Hcheck Hans H200 Hread Htext Hdecode.
  pose proof (postJson_answered env c h _ _ response Hans) as H.
  rewrite H200, Hread in H.
  unfold GetAccessToken. rewrite Hcheck. io_unfold.
  destruct (postJson env c _ _ h) as [[body err] h']. simpl in H.
  injection H as -> ->. simpl. rewrite Htext, Hdecode. by simpl.
Qed.

(** A valid answer replaces the credential (and rewrites the file). *)
Lemma GetAccessToken_success c h response text decoded :
  AccessTokenRequest_Check env (accessToken_request c) = None →
  answers env h (endpoint env c "/accessToken")
    (PAccessToken (accessToken_request c)) response →
  StatusCode response = 200 →
  snd (ReadAll response) = None →
  json_Unmarshal_string env (fst (ReadAll response)) = Ok text →
  Base64.DecodeString text = (decoded, None) →
  accessToken (fst (fst (GetAccessToken env c h))) = Some decoded.
Proof.
  intros Hcheck Hans H200 Hread Htext Hdecode.
  pose proof (postJson_answered env c h _ _ response Hans) as H.
  rewrite H200, Hread in H.
  unfold GetAccessToken. rewrite Hcheck. io_unfold.
  destruct (postJson env c _ _ h) as [[body err] h']. simpl in H.
  injection H as -> ->. simpl. rewrite Htext, Hdecode. simpl.
  by destruct (0 <? String.length _)%nat.
Qed.

(** A request that fails its check is not sent: [Connect] returns the error
    of the check and the history is as it was. *)
Lemma Connect_check_error c key h e :
  ConnectRequest_Check env (connect_request c key) = Some e →
  Connect env c key h = ((None, Some e), h).
Proof. intros Hcheck. unfold Connect. by rewrite Hcheck. Qed.

(** The request does not depend on the remote address: its check cannot
    tell whether an address has been resolved. *)
Lemma connect_request_remote c key r :
  connect_request (with_remote r c) key = connect_request c key.
Proof. reflexivity. Qed.

(** Once the check is passed [Connect] is its exchange, whatever the remote
    address is: the first event is the POST to the endpoint. *)
Lemma Connect_checked_posts c key h :
  ConnectRequest_Check env (connect_request c key) = None →
  snd (Connect env c key h) = snd (postJson env c (endpoint env c "/connect")
                                     (PConnect (connect_request c key)) h).
Proof.
  intros Hcheck. unfold Connect. rewrite Hcheck. io_unfold.
  destruct (postJson env c _ _ h) as [[body [err |]] h']; [done |].
  by destruct (json_Unmarshal_ConnectResponse env _).
Qed.

(** A key has 32 bytes: the public key of a connect request is never
    empty. *)
Lemma Key_not_empty (key : Key) : key_bytes key ≠ [].
Proof. destruct key as [[| b r] Hlen]; [discriminate | done]. Qed.

(** The check that the spec describes refuses a request without host,
    without domain or without public key. *)
Lemma ConnectRequest_Check_spec_missing (r : ConnectRequest) :
  ConnectRequest_Host r = "" ∨ ConnectRequest_Domain r = ""
  ∨ ConnectRequest_PublicKey r = [] →
  is_validation_error (ConnectRequest_Check_spec r) = true.
Proof.
  unfold ConnectRequest_Check_spec. intros [-> | [-> | ->]]; simpl.
  - reflexivity.
  - by destruct (String.eqb _ _).
  - by repeat destruct (String.eqb _ _).
Qed.

(** C6, without the remote address. With the check of the spec, when the
    host or the domain of the request is missing, [Connect] returns a
    validation error and adds no event to the history: there is no network
    call. *)
Theorem Connect_validation_first c key h :
  ConnectRequest_Check env = ConnectRequest_Check_spec →
  trimmed_Host c = "" ∨ Domain (Client_Config c) = "" →
  ∃ field, Connect env c key h = ((None, Some (ValidationError field)), h).
Proof.
  intros Hspec Hmissing.
  assert (is_validation_error
            (ConnectRequest_Check env (connect_request c key)) = true) as H.
  { rewrite Hspec. apply ConnectRequest_Check_spec_missing. simpl. tauto. }
  destruct (ConnectRequest_Check env (connect_request c key))
    as [[| | | | | | field |] |] eqn:Hcheck; try discriminate H.
  exists field. by apply Connect_check_error.
Qed.

End Credential.

(** * The theorems on concrete inputs *)

Module Run.

Import Example.

(** [NewClient] on the configuration [{Host: "203.0.113.9"}]: the port
    becomes 432 and the client is [new_client literal]. *)
Example NewClient_literal :
  NewClient (env_of silent) (config "203.0.113.9" 0 0 "") []
    = ((Some (new_client literal), None), []).
Proof. reflexivity. Qed.

(** The pin of the root is the one the table has for it. *)
Example root_pin :
  certificate_pin root = "r/mIkG3eEpVdm+u/ko/cwxzOMo1bk4TyHIlByibiA5E=".
Proof. vm_compute. reflexivity. Qed.

(** C1: a chain of a server certificate and the root passes. *)
Lemma Pins_root_chain :
  every_CA (subject_pinned (new_client nl)) [[leaf; root]]
  ∧ fst (Pins (new_client nl) [] [[leaf; root]] []) = None.
Proof.
  assert (every_CA (subject_pinned (new_client nl)) [[leaf; root]]) as Hall.
  { apply every_CA_Forall.
    constructor; [| constructor].
    constructor; [discriminate |].
    constructor; [| constructor].
    intros _. vm_compute. reflexivity. }
  split; [exact Hall |].
  exact (proj1 (Pins_subject_pin (new_client nl) [] [[leaf; root]] []) Hall).
Defined.

(** C1 as stated fails: every CA certificate of the chain has the pair of
    its issuer common name and of its digest in the table, and [Pins]
    returns the pin error. *)
Lemma Pins_issuer_pair_refused :
  every_CA (issuer_pinned (new_client nl)) [[leaf; renamed]]
  ∧ fst (Pins (new_client nl) [] [[leaf; renamed]] []) = Some ErrBadPin.
Proof.
  split; [| vm_compute; reflexivity].
  apply every_CA_Forall.
  constructor; [| constructor].
  constructor; [discriminate |].
  constructor; [| constructor].
  intros _. vm_compute. reflexivity.
Qed.

(** The issuer of a certificate is not looked at: the root under its own
    name passes whoever issued it. *)
Example Pins_cross_signed :
  ¬ issuer_pinned (new_client nl) cross_signed
  ∧ Pins (new_client nl) [] [[leaf; cross_signed]] []
    = (None, [EvPrintln "Pins: DigiCert Global Root CA pin OK"]).
Proof. split; [vm_compute; discriminate | vm_compute; reflexivity]. Qed.

(** The first chain passes and the second fails at its intermediate: the
    root that follows is not looked at. *)
Example Pins_log :
  Pins (new_client nl) [] [[leaf; root]; [leaf; intermediate; root]] []
    = (Some ErrBadPin,
       [EvPrintln "Pins: DigiCert Global Root CA pin OK";
        EvPrintln "Pins: Example Intermediate CA pin failed"]).
Proof. vm_compute. reflexivity. Qed.

(** C2: the name service answers once, and the second [Resolve] keeps the
    address of the first. *)
Lemma Resolve_sticky :
  let env := env_of flaky in
  let first := Resolve env (new_client nl) [] in
  let c := fst (fst first) in
  let h := snd first in
  remote c = Some server_address
  ∧ net_ParseIP env (Host (Client_Config c)) = None
  ∧ resolver_LookupIPAddr env h (Host (Client_Config c)) = Err no_such_host
  ∧ let '((c', e), _) := Resolve env c h in
    c' = c ∧ e = None ∧ remote c' = Some server_address.
Proof.
  intros env first c h.
  split; [reflexivity |]. split; [reflexivity |]. split; [reflexivity |].
  exact (Resolve_lookup_failure env c h no_such_host eq_refl eq_refl).
Defined.

(** C8: the example of the spec. *)
Lemma Resolve_203_0_113_9 :
  let env := env_of silent in
  net_ParseIP env (Host (Client_Config (new_client literal)))
    = TCPAddr_IP server_address
  ∧ ∃ c',
      Resolve env (new_client literal) [] = ((c', None), [])
      ∧ remote c' = Some server_address
      ∧ Client_ServerName c' = "hideservers.net".
Proof.
  split; [reflexivity |].
  exact (Resolve_literal_IP (env_of silent) (new_client literal) [] _ eq_refl).
Defined.

(** C9: an answer without address. *)
Lemma Resolve_no_address :
  let env := env_of no_address in
  let c := with_remote (Some server_address) (new_client nl) in
  ∃ text,
    Resolve env c []
      = ((c, Some (errors_New (text +:+ "nl.hideservers.net"))),
         [EvLookupIPAddr "nl.hideservers.net"])
    ∧ (text = "dns lookup failed for " ∨ text = "no IP found for ").
Proof.
  exact (Resolve_empty_answer (env_of no_address)
           (with_remote (Some server_address) (new_client nl)) [] []
           eq_refl eq_refl (or_introl eq_refl)).
Defined.

Lemma server_answers status body url (object : @Payload unit) :
  answers (env_of (server status body)) [] url object
    {| StatusCode := status; ReadAll := (body, None) |}.
Proof. exists []. repeat split. Defined.

(** C7: a server that answers 403. *)
Lemma postJson_403 :
  fst (postJson (env_of (server 403 [])) (new_client nl) filter_url
         (PFilter tt) [])
    = (None, Some ErrAppUpdateRequired).
Proof.
  exact (proj1 (postJson_status (env_of (server 403 [])) (new_client nl) []
                  filter_url (PFilter tt) _
                  (server_answers 403 [] filter_url (PFilter tt)))
               eq_refl).
Defined.

(** The four operations against a server that answers 403. *)
Lemma operations_403 :
  let env := env_of (server 403 []) in
  let c := new_client nl in
  fst (Connect env c key []) = (None, Some ErrAppUpdateRequired)
  ∧ fst (Disconnect env c None []) = Some ErrAppUpdateRequired
  ∧ fst (GetAccessToken env c []) = (c, Some ErrAppUpdateRequired)
  ∧ fst (ApplyFilter env c []) = Some ErrAppUpdateRequired.
Proof.
  destruct (operations_status (env_of (server 403 [])) (new_client nl) []
              {| StatusCode := 403; ReadAll := ([], None) |}
              ErrAppUpdateRequired eq_refl) as (H1 & H2 & H3 & H4).
  split; [| split; [| split]].
  - apply H1; [reflexivity | apply server_answers].
  - apply H2; [reflexivity | apply server_answers].
  - apply H3; [reflexivity | apply server_answers].
  - apply H4; [reflexivity | apply server_answers].
Defined.

(** C10: the example of the spec. *)
Lemma ApplyFilter_false :
  fst (ApplyFilter (env_of (server 200 (bytes_of_string "false")))
         (new_client nl) [])
    = Some (errors_New "filter failed").
Proof.
  exact (ApplyFilter_false_body
           (env_of (server 200 (bytes_of_string "false"))) (new_client nl) []
           _ eq_refl
           (server_answers 200 (bytes_of_string "false") filter_url
              (PFilter tt))
           eq_refl eq_refl).
Defined.

(** C4 as stated fails: with the mark 7 and a kernel that refuses it, the
    dial returns the error of the mark, and the socket is closed without
    having been connected. *)
Lemma dialContext_mark_refused :
  dialContext (env_of mark_refused) (new_client (config "203.0.113.9" 432 7 ""))
    "tcp" "203.0.113.9:432" []
  = (Returns (Err (OpError "dial" "tcp" "203.0.113.9:432" EPERM)),
     [EvSocket "tcp" "203.0.113.9:432"; EvRawControl 3;
      EvSetsockoptInt 3 1 36 7;
      EvPrintln "Dial: [ERR] Set mark failed, operation not permitted";
      EvClose 3]).
Proof. reflexivity. Qed.

(** C4: the same on a dial of the resolver, which goes to a DNS server. *)
Lemma dialContext_udp_mark_refused :
  let c := new_client (config "nl.hideservers.net" 432 7 "") in
  0 < FirewallMark (Client_Config c)
  ∧ dialContext (env_of mark_refused) c "udp" "192.0.2.1:53" []
    = (Returns (Err (OpError "dial" "udp" "1.1.1.1:53" EPERM)),
       [EvRandIntn 1; EvSocket "udp" "1.1.1.1:53"; EvRawControl 3;
        EvSetsockoptInt 3 1 36 7;
        EvPrintln "Dial: [ERR] Set mark failed, operation not permitted";
        EvClose 3]).
Proof.
  split; [reflexivity |].
  refine (dialContext_mark_failure (env_of mark_refused)
            (new_client (config "nl.hideservers.net" 432 7 ""))
            "udp" "192.0.2.1:53" [] "1.1.1.1:53" [EvRandIntn 1] 3 EPERM
            eq_refl _ eq_refl eq_refl eq_refl).
  repeat split; discriminate.
Defined.

(** C5: a credential file that holds [QUJD!], which is not base64. *)
Lemma NewClient_bad_token_file :
  let env := env_of (one_file "accessToken.txt" (bytes_of_string "QUJD!")) in
  let k := config "nl.hideservers.net" 432 0 "accessToken.txt" in
  snd (Base64.DecodeString "QUJD!") = Some (Base64.Corrupt 4)
  ∧ ∃ c,
      fst (NewClient env k []) = (Some c, None)
      ∧ accessToken c = Some (bytes_of_string "ABC")
      ∧ HaveAccessToken c = true.
Proof.
  split; [reflexivity |].
  refine (NewClient_stores_decoded_file
            (env_of (one_file "accessToken.txt" (bytes_of_string "QUJD!")))
            (config "nl.hideservers.net" 432 0 "accessToken.txt")
            [] None [] (bytes_of_string "QUJD!") eq_refl _ eq_refl).
  discriminate.
Defined.

(** A credential file that does not exist. *)
Lemma NewClient_no_token_file :
  ∃ c,
    fst (NewClient (env_of silent)
           (config "nl.hideservers.net" 432 0 "accessToken.txt") [])
      = (Some c, None)
    ∧ HaveAccessToken c = false.
Proof.
  refine (NewClient_unreadable_token_file (env_of silent)
            (config "nl.hideservers.net" 432 0 "accessToken.txt")
            [] None [] no_such_file eq_refl _ eq_refl).
  discriminate.
Defined.

(** The defaults on a configuration without port. *)
Lemma NewClient_port_432 :
  ∃ c,
    fst (NewClient (env_of silent) (config "nl.hideservers.net" 0 0 "") [])
      = (Some c, None)
    ∧ Port (Client_Config c) = 432
    ∧ (DnsServers (config "nl.hideservers.net" 0 0 "") = "" →
       dnsServers c = ["1.1.1.1:53"])
    ∧ remote c = None
    ∧ Client_ServerName c = ""
    ∧ authorizedPins c = pin_table.
Proof.
  exact (NewClient_defaults (env_of silent)
           (config "nl.hideservers.net" 0 0 "") [] None [] eq_refl).
Defined.

(** The first answer of the name service is stored. *)
Lemma Resolve_first_answer :
  let '((c', e), _) := Resolve (env_of flaky) (new_client nl) [] in
  e = None
  ∧ remote c' = Some server_address
  ∧ Client_ServerName c' = "nl.hideservers.net".
Proof.
  exact (Resolve_first_address (env_of flaky) (new_client nl) []
           {| IPAddr_IP := ParseIPv4 "203.0.113.9"; IPAddr_Zone := "" |} []
           _ eq_refl eq_refl eq_refl).
Defined.

(** C3: a token endpoint that answers 200 with the JSON string [QUJD!]. *)
Lemma GetAccessToken_bad_token :
  let env := env_of (server 200 (quoted "QUJD!")) in
  accessToken (new_client nl) = None
  ∧ fst (GetAccessToken env (new_client nl) [])
      = (with_accessToken (Some (bytes_of_string "ABC")) (new_client nl),
         Some (Base64Error (Base64.Corrupt 4)))
  ∧ HaveAccessToken (fst (fst (GetAccessToken env (new_client nl) [])))
      = true.
Proof.
  split; [reflexivity |].
  exact (GetAccessToken_decode_error (env_of (server 200 (quoted "QUJD!")))
           (new_client nl) [] _ "QUJD!" (bytes_of_string "ABC")
           (Base64.Corrupt 4) eq_refl
           (server_answers 200 (quoted "QUJD!") _ _)
           eq_refl eq_refl eq_refl eq_refl).
Defined.

(** C6: a configuration without host. *)
Lemma Connect_without_host :
  let c := new_client (config ".hideservers.net" 432 0 "") in
  trimmed_Host c = ""
  ∧ ∃ field,
      Connect (env_of silent) c key []
        = ((None, Some (ValidationError field)), []).
Proof.
  split; [reflexivity |].
  exact (Connect_validation_first (env_of silent)
           (new_client (config ".hideservers.net" 432 0 "")) key []
           eq_refl (or_introl eq_refl)).
Defined.

(** C6 as stated fails: without a resolved address a request that has its
    host, domain and key is posted, to an address made of the text of the
    nil address, and the error is the one of the transport. *)
Lemma Connect_without_remote :
  remote (new_client nl) = None
  ∧ Connect (env_of silent) (new_client nl) key []
    = ((None, Some unreachable),
       [EvHttpDo (post_request "https://<nil>/v1.0.0/connect" [])])
  ∧ is_validation_error (Some unreachable) = false
  ∧ is_network (EvHttpDo (post_request "https://<nil>/v1.0.0/connect" []))
    = true.
Proof. repeat split. Qed.

End Run.

(** * Further properties of the client *)

Section Construction.

Context {rest_Filter ConnectResponse : Type}.
Variable env : @Env rest_Filter ConnectResponse.
Implicit Types (c : @Client rest_Filter) (h : list Event)
  (config : @Config rest_Filter).

Lemma load_RootCAs_Port config p :
  load_RootCAs env (with_Port p config) = load_RootCAs env config.
Proof. reflexivity. Qed.

Lemma load_accessToken_Port config p :
  load_accessToken env (with_Port p config) = load_accessToken env config.
Proof. reflexivity. Qed.

(** [NewClient] in terms of its two loads. *)
Lemma NewClient_loads config h :
  NewClient env config h =
    match load_RootCAs env config h with
    | (Err err, h1) => ((None, Some err), h1)
    | (Ok roots, h1) =>
        (fst (NewClient env config h), snd (load_accessToken env config h1))
    end.
Proof.
  unfold NewClient. io_unfold.
  destruct (Port config =? 0);
    rewrite ?load_RootCAs_Port, ?load_accessToken_Port;
    destruct (load_RootCAs env config h) as [[roots | err] h1]; try done;
    by destruct (load_accessToken env config h1).
Qed.

(** A CA bundle that cannot be read, or that holds no certificate, ends the
    construction with an error: no client is returned, and the credential
    file is not read. *)
Theorem NewClient_CA_failure config h :
  CA config ≠ "" →
  (∀ err,
     os_ReadFile env h (CA config) = Err err →
     NewClient env config h
       = ((None, Some err), h ++ [EvReadFile (CA config)]))
  ∧ (∀ pem,
       os_ReadFile env h (CA config) = Ok pem →
       snd (AppendCertsFromPEM env pem) = false →
       NewClient env config h
         = ((None, Some (errors_New ("Bad certificate in " +:+ CA config))),
            h ++ [EvReadFile (CA config)])).
Proof.
  intros HCA. split.
  - intros err Hread. rewrite NewClient_loads. unfold load_RootCAs.
    rewrite (nonempty_len _ HCA). io_unfold. by rewrite Hread.
  - intros pem Hread Hbad. rewrite NewClient_loads. unfold load_RootCAs.
    rewrite (nonempty_len _ HCA). io_unfold. rewrite Hread.
    destruct (AppendCertsFromPEM env pem) as [pool ok]. simpl in Hbad.
    by rewrite Hbad.
Qed.

Lemma load_RootCAs_events config h :
  ∃ added,
    snd (load_RootCAs env config h) = h ++ added
    ∧ forallb is_read_file added = true ∧ (length added ≤ 1)%nat.
Proof.
  unfold load_RootCAs. destruct (0 <? String.length (CA config))%nat.
  - io_unfold. exists [EvReadFile (CA config)].
    destruct (os_ReadFile env h (CA config)) as [pem | err];
      [| by simpl; auto].
    destruct (AppendCertsFromPEM env pem) as [pool []]; by simpl; auto.
  - exists []. rewrite app_nil_r. by simpl; auto with arith.
Qed.

Lemma load_accessToken_events config h :
  ∃ added,
    snd (load_accessToken env config h) = h ++ added
    ∧ forallb is_read_file added = true ∧ (length added ≤ 1)%nat.
Proof.
  unfold load_accessToken.
  destruct (0 <? String.length (AccessTokenFile config))%nat.
  - io_unfold. exists [EvReadFile (AccessTokenFile config)].
    destruct (os_ReadFile env h (AccessTokenFile config)); by simpl; auto.
  - exists []. rewrite app_nil_r. by simpl; auto with arith.
Qed.

(** [NewClient] only reads files, two at most: it makes no DNS query, no
    HTTP exchange and no connection, and it prints nothing. *)
Theorem NewClient_only_reads_files config h :
  ∃ added,
    snd (NewClient env config h) = h ++ added
    ∧ forallb is_read_file added = true
    ∧ forallb (λ e, negb (is_network e)) added = true
    ∧ (length added ≤ 2)%nat.
Proof.
  rewrite NewClient_loads.
  destruct (load_RootCAs_events config h) as (a1 & H1 & Hr1 & Hl1).
  destruct (load_RootCAs env config h) as [[roots | err] h1]; simpl in H1;
    subst h1.
  - destruct (load_accessToken_events config (h ++ a1)) as (a2 & H2 & Hr2 & Hl2).
    exists (a1 ++ a2). simpl. rewrite H2, <- app_assoc.
    split; [done |]. rewrite !forallb_app, Hr1, Hr2, length_app.
    split; [done |]. split; [| lia].
    apply andb_true_intro. split.
    + clear -Hr1. induction a1 as [| [] a IH]; simpl in *; try done; auto.
    + clear -Hr2. induction a2 as [| [] a IH]; simpl in *; try done; auto.
  - exists a1. simpl. split; [done |]. split; [done |]. split; [| lia].
    clear -Hr1. induction a1 as [| [] a IH]; simpl in *; try done; auto.
Qed.

(** [strings.Split] never returns an empty list, its parts hold no
    separator, and joined with the separator they give the string back. *)
Lemma strings_Split_nonempty (s : string) (sep : ascii) :
  strings_Split s sep ≠ [].
Proof.
  destruct s as [| ch r]; simpl; [done |].
  destruct (Ascii.eqb ch sep); [done |].
  by destruct (strings_Split r sep).
Qed.

Lemma strings_Split_join (s : string) :
  String.concat "," (strings_Split s ","%char) = s.
Proof.
  induction s as [| ch r IH]; [reflexivity |].
  simpl. destruct (Ascii.eqb_spec ch ","%char) as [-> | Hch].
  - pose proof (strings_Split_nonempty r ","%char) as Hne.
    destruct (strings_Split r ","%char) as [| x xs]; [done |].
    cbn [String.concat]. cbn [String.concat] in IH.
    simpl. by rewrite IH.
  - pose proof (strings_Split_nonempty r ","%char) as Hne.
    destruct (strings_Split r ","%char) as [| x xs]; [done |].
    cbn [String.concat] in *. destruct xs as [| y ys].
    + by subst.
    + simpl. by rewrite <- IH.
Qed.

Lemma strings_Split_parts (s : string) :
  Forall (λ part, has_comma part = false) (strings_Split s ","%char).
Proof.
  induction s as [| ch r IH]; simpl; [by repeat constructor |].
  destruct (Ascii.eqb_spec ch ","%char) as [-> | Hch].
  - by constructor.
  - pose proof (strings_Split_nonempty r ","%char) as Hne.
    destruct (strings_Split r ","%char) as [| x xs]; [done |].
    inversion IH as [| ? ? Hx Hxs]; subst. constructor; [| done].
    unfold has_comma in *. cbn [list_ascii_of_string existsb]. rewrite Hx.
    destruct (Ascii.eqb_spec ","%char ch) as [Heq | Hne']; [| done].
    by destruct Hch.
Qed.

Lemma NewClient_servers config h c :
  fst (fst (NewClient env config h)) = Some c →
  dnsServers c ≠ []
  ∧ (DnsServers config ≠ "" →
     ∃ parts,
       dnsServers c = map (strings_TrimSpace env) parts
       ∧ String.concat "," parts = DnsServers config
       ∧ Forall (λ part, has_comma part = false) parts).
Proof.
  unfold NewClient. io_unfold.
  set (k := if Port config =? 0 then with_Port 432 config else config).
  assert (DnsServers k = DnsServers config) as Hk
    by (unfold k; by destruct (Port config =? 0)).
  destruct (load_RootCAs env k h) as [[roots | err] h1]; [| done].
  destruct (load_accessToken env k h1) as [token h2]. simpl.
  intros [= <-]. simpl. rewrite Hk. split.
  - destruct (0 <? String.length (DnsServers config))%nat; [| done].
    pose proof (strings_Split_nonempty (DnsServers config) ","%char).
    by destruct (strings_Split (DnsServers config) ","%char).
  - intros Hservers. rewrite (nonempty_len _ Hservers).
    exists (strings_Split (DnsServers config) ","%char).
    split; [done |]. split; [apply strings_Split_join |].
    apply strings_Split_parts.
Qed.

(** The DNS servers of a client are the parts of the configured list between
    its commas, each one trimmed, none lost and in their order; without a
    configured list there is one server. The list is never empty. *)
Theorem NewClient_dnsServers config h c :
  fst (fst (NewClient env config h)) = Some c →
  dnsServers c ≠ []
  ∧ (DnsServers config ≠ "" →
     ∃ parts,
       dnsServers c = map (strings_TrimSpace env) parts
       ∧ String.concat "," parts = DnsServers config
       ∧ Forall (λ part, has_comma part = false) parts).
Proof. apply NewClient_servers. Qed.

End Construction.

Section MoreDialing.

Context {rest_Filter ConnectResponse : Type}.
Variable env : @Env rest_Filter ConnectResponse.
Implicit Types (c : @Client rest_Filter) (h : list Event)
  (config : @Config rest_Filter).

(** With a positive mark, when the mark is set the socket is connected
    afterwards: the mark is on the socket before any connection, and the
    result of the dial is the result of the connection. *)
Theorem dialContext_marks_before_connect c network addr h target h1 fd :
  0 < FirewallMark (Client_Config c) →
  dials env c network addr h target h1 →
  sys_socket env h1 network target = Ok fd →
  rawConn_closed env (h1 ++ [EvSocket network target]) fd = None →
  syscall_SetsockoptInt env
    (h1 ++ [EvSocket network target; EvRawControl fd])
    fd SOL_SOCKET SO_MARK (FirewallMark (Client_Config c)) = None →
  let prefix :=
    [EvSocket network target; EvRawControl fd;
     EvSetsockoptInt fd SOL_SOCKET SO_MARK (FirewallMark (Client_Config c))] in
  let end_ :=
    connected network target fd (sys_connect env (h1 ++ prefix) fd target) in
  dialContext env c network addr h
    = (Returns (fst end_),
       h1 ++ prefix ++ EvConnect fd target :: snd end_).
Proof.
  intros Hmark Hdials Hsocket Hopen Hset prefix end_.
  rewrite (dialContext_dials env c network addr h target h1 Hdials).
  destruct (Z.ltb_spec 0 (FirewallMark (Client_Config c))); [| lia].
  unfold Dialer_DialContext, mark_hook, RawConn_Control. io_unfold.
  rewrite Hsocket. simpl. rewrite Hopen. simpl.
  rewrite <- ?app_assoc. simpl. rewrite Hset. simpl.
  rewrite <- ?app_assoc. simpl. subst end_ prefix.
  destruct (sys_connect env _ fd target); simpl;
    by rewrite <- ?app_assoc.
Qed.

(** With a positive mark, when [rawConn.Control] itself fails the mark is
    not set, that error is dropped, and the socket is connected
    unmarked. *)
Theorem dialContext_control_error_ignored c network addr h target h1 fd e :
  0 < FirewallMark (Client_Config c) →
  dials env c network addr h target h1 →
  sys_socket env h1 network target = Ok fd →
  rawConn_closed env (h1 ++ [EvSocket network target]) fd = Some e →
  let prefix := [EvSocket network target; EvRawControl fd] in
  let end_ :=
    connected network target fd (sys_connect env (h1 ++ prefix) fd target) in
  dialContext env c network addr h
    = (Returns (fst end_),
       h1 ++ prefix ++ EvConnect fd target :: snd end_).
Proof.
  intros Hmark Hdials Hsocket Hclosed prefix end_.
  rewrite (dialContext_dials env c network addr h target h1 Hdials).
  destruct (Z.ltb_spec 0 (FirewallMark (Client_Config c))); [| lia].
  unfold Dialer_DialContext, mark_hook, RawConn_Control. io_unfold.
  rewrite Hsocket. simpl. rewrite Hclosed. simpl.
  rewrite <- ?app_assoc. simpl. subst end_ prefix.
  destruct (sys_connect env _ fd target); simpl;
    by rewrite <- ?app_assoc.
Qed.

(** Without a positive mark (zero or negative) the socket is connected as
    it is made: no option is ever set on it. *)
Theorem dialContext_unmarked c network addr h target h1 fd :
  FirewallMark (Client_Config c) ≤ 0 →
  dials env c network addr h target h1 →
  sys_socket env h1 network target = Ok fd →
  let end_ :=
    connected network target fd
      (sys_connect env (h1 ++ [EvSocket network target]) fd target) in
  dialContext env c network addr h
    = (Returns (fst end_),
       h1 ++ EvSocket network target :: EvConnect fd target :: snd end_).
Proof.
  intros Hmark Hdials Hsocket end_.
  rewrite (dialContext_dials env c network addr h target h1 Hdials).
  destruct (Z.ltb_spec 0 (FirewallMark (Client_Config c))); [lia |].
  unfold Dialer_DialContext. io_unfold. rewrite Hsocket. simpl.
  subst end_. destruct (sys_connect env _ fd target); simpl;
    by rewrite <- ?app_assoc.
Qed.

(** The events of the hook carry no address. *)
Lemma mark_hook_events c network addr fd h :
  ∃ added,
    snd (mark_hook env c network addr fd h) = h ++ added
    ∧ Forall (λ e, dialed_address e = None) added.
Proof.
  unfold mark_hook, RawConn_Control. io_unfold.
  destruct (rawConn_closed env h fd).
  - exists [EvRawControl fd]. by repeat constructor.
  - destruct (syscall_SetsockoptInt env _ fd SOL_SOCKET SO_MARK _); simpl.
    + eexists [_; _; _]. rewrite <- ?app_assoc. by repeat constructor.
    + eexists [_; _]. rewrite <- ?app_assoc. by repeat constructor.
Qed.

(** Every address a dial puts on the network is its target. *)
Lemma Dialer_DialContext_events c network target h :
  ∃ added,
    snd (Dialer_DialContext env
           {| Control := if 0 <? FirewallMark (Client_Config c)
                         then Some (mark_hook env c) else None |}
           network target h) = h ++ added
    ∧ Forall (λ e, ∀ a, dialed_address e = Some a → a = target) added.
Proof.
  unfold Dialer_DialContext. io_unfold.
  destruct (sys_socket env h network target) as [fd | e].
  2: { exists [EvSocket network target]. split; [done |].
       repeat constructor. by intros a [= <-]. }
  cbn [Control].
  set (hook := match (if 0 <? FirewallMark (Client_Config c)
                      then Some (mark_hook env c) else None) with
               | Some f => f network target fd
               | None => λ h0, (None, h0)
               end).
  assert (∃ added,
            snd (hook (h ++ [EvSocket network target]))
              = (h ++ [EvSocket network target]) ++ added
            ∧ Forall (λ e, dialed_address e = None) added)
    as (added & Hh & Hadded).
  { subst hook. destruct (0 <? FirewallMark (Client_Config c)).
    - apply mark_hook_events.
    - exists []. by rewrite app_nil_r. }
  destruct (hook (h ++ [EvSocket network target])) as [r h2].
  simpl in Hh. subst h2.
  assert (Forall (λ e, ∀ a, dialed_address e = Some a → a = target) added)
    as Hadded'.
  { eapply Forall_impl; [exact Hadded |]. intros e He a Ha. congruence. }
  destruct r as [e |].
  - exists (EvSocket network target :: added ++ [EvClose fd]).
    split; [by rewrite <- !app_assoc |].
    constructor; [by intros a [= <-] |].
    apply Forall_app. split; [done |]. by repeat constructor.
  - destruct (sys_connect env _ fd target).
    + exists (EvSocket network target
                :: added ++ [EvConnect fd target; EvClose fd]).
      split; [by rewrite <- !app_assoc |].
      constructor; [by intros a [= <-] |].
      apply Forall_app. split; [done |].
      repeat constructor; by intros a [= <-].
    + exists (EvSocket network target :: added ++ [EvConnect fd target]).
      split; [by rewrite <- !app_assoc |].
      constructor; [by intros a [= <-] |].
      apply Forall_app. split; [done |].
      repeat constructor; by intros a [= <-].
Qed.

(** On the network "udp" the address asked for is never used: whatever
    happens, every socket made and every connection attempted is to one of
    the DNS servers of the client. *)
Theorem dialContext_udp_servers c addr h :
  ∃ added,
    snd (dialContext env c "udp" addr h) = h ++ added
    ∧ Forall (λ e, ∀ a, dialed_address e = Some a → a ∈ dnsServers c) added.
Proof.
  unfold dialContext. simpl. io_unfold.
  destruct (Z.of_nat (length (dnsServers c)) <=? 0).
  { exists []. by rewrite app_nil_r. }
  set (n := Z.of_nat (length (dnsServers c))).
  destruct (if rand_Intn env h n <? 0 then None
            else dnsServers c !! Z.to_nat (rand_Intn env h n))
    as [server |] eqn:Hserver.
  2: { exists [EvRandIntn n]. split; [done |]. by repeat constructor. }
  assert (server ∈ dnsServers c) as Hin.
  { destruct (rand_Intn env h n <? 0); [done |].
    by eapply list_elem_of_lookup_2. }
  destruct (Dialer_DialContext_events c "udp" server (h ++ [EvRandIntn n]))
    as (added & Hs & Hf).
  destruct (Dialer_DialContext env _ "udp" server _) as [r h2].
  simpl in Hs. simpl. exists (EvRandIntn n :: added).
  split; [by rewrite Hs, <- app_assoc |].
  constructor; [done |].
  eapply Forall_impl; [exact Hf |]. intros e He a Ha.
  by rewrite (He a Ha).
Qed.


End MoreDialing.

Section MoreExchange.

Context {rest_Filter ConnectResponse : Type}.
Variable env : @Env rest_Filter ConnectResponse.
Implicit Types (c : @Client rest_Filter) (h : list Event)
  (object : @Payload rest_Filter) (response : Response)
  (config : @Config rest_Filter).

Lemma postJson_events c h url object :
  match json_MarshalIndent env object, http_NewRequest env url with
  | (body, None), None =>
      ∃ log,
        snd (postJson env c url object h)
          = h ++ EvHttpDo (post_request url body) :: log
        ∧ forallb is_println log = true ∧ (length log ≤ 1)%nat
  | (_, Some err), _ | _, Some err =>
      postJson env c url object h = ((None, Some err), h)
  end.
Proof.
  unfold postJson.
  destruct (json_MarshalIndent env object) as [body [err |]].
  - by destruct (http_NewRequest env url).
  - destruct (http_NewRequest env url); [done |]. io_unfold.
    destruct (client_Do env h (post_request url body)) as [response | e].
    + destruct (StatusCode response =? StatusForbidden); simpl.
      * eexists [_]. rewrite <- app_assoc. by simpl; auto.
      * destruct (StatusCode response =? StatusOK); simpl.
        -- exists []. by simpl; auto with arith.
        -- eexists [_]. rewrite <- app_assoc. by simpl; auto.
    + exists []. by simpl; auto with arith.
Qed.

(** [postJson] makes one HTTP exchange at most: none when the object cannot
    be marshalled or the request cannot be made, and otherwise exactly one,
    a POST of the marshalled object to the URL with the two headers,
    followed by one diagnostic at most. *)
Theorem postJson_one_exchange c h url object :
  match json_MarshalIndent env object, http_NewRequest env url with
  | (body, None), None =>
      ∃ log,
        snd (postJson env c url object h)
          = h ++ EvHttpDo (post_request url body) :: log
        ∧ forallb is_println log = true ∧ (length log ≤ 1)%nat
  | (_, Some err), _ | _, Some err =>
      postJson env c url object h = ((None, Some err), h)
  end.
Proof. apply postJson_events. Qed.

(** What [Connect] returns on a status 200: the error of reading the body
    if there is one and no response, otherwise the response that
    [json.Unmarshal] filled together with its error. *)
Theorem Connect_outcome c key h response :
  ConnectRequest_Check env (connect_request c key) = None →
  answers env h (endpoint env c "/connect") (PConnect (connect_request c key))
    response →
  StatusCode response = 200 →
  fst (Connect env c key h) =
    match snd (ReadAll response) with
    | Some err => (None, Some err)
    | None =>
        (Some (fst (json_Unmarshal_ConnectResponse env (fst (ReadAll response)))),
         snd (json_Unmarshal_ConnectResponse env (fst (ReadAll response))))
    end.
Proof.
  intros Hcheck Hans H200.
  pose proof (postJson_answered env c h _ _ response Hans) as H.
  rewrite H200 in H. unfold Connect. rewrite Hcheck. io_unfold.
  destruct (postJson env c _ _ h) as [[body err] h']. simpl in H.
  injection H as -> ->.
  destruct (snd (ReadAll response)); [done |]. simpl.
  by destruct (json_Unmarshal_ConnectResponse env (fst (ReadAll response))).
Qed.

(** [Disconnect] does not send a request that fails its check, and on a
    status 200 it ignores the body: its result is the error of reading the
    body, nil when it was read. *)
Theorem Disconnect_outcome c sessionToken h :
  (∀ e,
     DisconnectRequest_Check env (disconnect_request c sessionToken) = Some e →
     Disconnect env c sessionToken h = (Some e, h))
  ∧ (∀ response,
       DisconnectRequest_Check env (disconnect_request c sessionToken) = None →
       answers env h (endpoint env c "/disconnect")
         (PDisconnect (disconnect_request c sessionToken)) response →
       StatusCode response = 200 →
       fst (Disconnect env c sessionToken h) = snd (ReadAll response)).
Proof.
  split.
  - intros e Hcheck. unfold Disconnect. by rewrite Hcheck.
  - intros response Hcheck Hans H200.
    pose proof (postJson_answered env c h _ _ response Hans) as H.
    rewrite H200 in H. unfold Disconnect. rewrite Hcheck. io_unfold.
    destruct (postJson env c _ _ h) as [[body err] h']. simpl in H.
    by injection H as -> ->.
Qed.

(** [ApplyFilter] does not send a filter that fails its check, and on a
    status 200 any body other than "false" is an acceptance: the result is
    the error of reading the body, nil when it was read. *)
Theorem ApplyFilter_accepted c h :
  (∀ e,
     Filter_Check env (Config_Filter (Client_Config c)) = Some e →
     ApplyFilter env c h = (Some e, h))
  ∧ (∀ response,
       Filter_Check env (Config_Filter (Client_Config c)) = None →
       answers env h filter_url (PFilter (Config_Filter (Client_Config c)))
         response →
       StatusCode response = 200 →
       string_of_bytes (fst (ReadAll response)) ≠ "false" →
       fst (ApplyFilter env c h) = snd (ReadAll response)).
Proof.
  split.
  - intros e Hcheck. unfold ApplyFilter. by rewrite Hcheck.
  - intros response Hcheck Hans H200 Hbody.
    pose proof (postJson_answered env c h _ _ response Hans) as H.
    rewrite H200 in H. unfold ApplyFilter. rewrite Hcheck. io_unfold.
    destruct (postJson env c _ _ h) as [[body err] h']. simpl in H.
    injection H as -> ->. simpl.
    by destruct (String.eqb_spec (string_of_bytes (fst (ReadAll response)))
                   "false").
Qed.

(** [Resolve] never clears the remote address, a nil error means that there
    is one, and an error means that nothing of the client has changed. It
    makes one DNS query at most and no other network call. *)
Theorem Resolve_invariants c h :
  let '((c', e), h') := Resolve env c h in
  (e = None → remote c' ≠ None)
  ∧ (remote c ≠ None → remote c' ≠ None)
  ∧ (e ≠ None → c' = c)
  ∧ ∃ added,
      h' = h ++ added
      ∧ (length (List.filter is_network added) ≤ 1)%nat
      ∧ forallb (λ ev, is_dns_query ev || is_println ev) added = true.
Proof.
  unfold Resolve. io_unfold.
  destruct (net_ParseIP env (Host (Client_Config c))) as [ip |].
  { repeat split; try done. exists []. by rewrite app_nil_r; simpl; auto. }
  destruct (resolver_LookupIPAddr env h (Host (Client_Config c)))
    as [[| [[ip |] zone] rest] | err]; simpl.
  - repeat split; try done. eexists [_]. by simpl; auto.
  - repeat split; try done. eexists [_; _]. rewrite <- app_assoc.
    by simpl; auto.
  - repeat split; try done. eexists [_]. by simpl; auto.
  - destruct (remote c) as [R |] eqn:HR; simpl.
    + rewrite HR. repeat split; try done.
      eexists [_; _; _]. rewrite <- !app_assoc. by simpl; auto.
    + repeat split; try done.
      eexists [_; _]. rewrite <- !app_assoc. by simpl; auto.
Qed.

(** After [Resolve] on a literal address, [Connect] posts to that address
    and the configured port: the first event of a request that passes its
    check is the POST to https://IP:port/version/connect. *)
Theorem Resolve_then_Connect c h ip key body :
  net_ParseIP env (Host (Client_Config c)) = Some ip →
  ip ≠ [] →
  let c' := fst (fst (Resolve env c h)) in
  let url :=
    "https://" +:+ JoinHostPort (IP_String env ip)
                     (pretty (Port (Client_Config c)))
      +:+ "/" +:+ APIVersion (Client_Config c) +:+ "/connect" in
  ConnectRequest_Check env (connect_request c' key) = None →
  json_MarshalIndent env (PConnect (connect_request c' key)) = (body, None) →
  http_NewRequest env url = None →
  ∃ log,
    snd (Connect env c' key h) = h ++ EvHttpDo (post_request url body) :: log
    ∧ forallb is_println log = true.
Proof.
  intros Hip Hne c' url Hcheck Hbody Hreq.
  assert (endpoint env c' "/connect" = url) as Hurl.
  { subst c' url. unfold Resolve. rewrite Hip. simpl.
    unfold endpoint, TCPAddr_String. simpl. by destruct ip. }
  rewrite (Connect_checked_posts env c' key h Hcheck), Hurl.
  pose proof (postJson_events c' h url (PConnect (connect_request c' key)))
    as H.
  rewrite Hbody, Hreq in H. destruct H as (log & -> & Hlog & _).
  by exists log.
Qed.

End MoreExchange.

Section MoreCredential.

Context {rest_Filter ConnectResponse : Type}.
Variable env : @Env rest_Filter ConnectResponse.
Implicit Types (c : @Client rest_Filter) (h : list Event)
  (response : Response) (config : @Config rest_Filter).

(** A refresh that succeeds stores the decoded credential and, when a file
    is configured, writes the base64 text to it with the permission 0600,
    after the exchange; the error of the write is the result, and the
    credential in memory is the new one whether the write fails or not.
    Without a configured file nothing is written. *)
Theorem GetAccessToken_persists c h response text decoded :
  AccessTokenRequest_Check env (accessToken_request c) = None →
  answers env h (endpoint env c "/accessToken")
    (PAccessToken (accessToken_request c)) response →
  StatusCode response = 200 →
  snd (ReadAll response) = None →
  json_Unmarshal_string env (fst (ReadAll response)) = Ok text →
  Base64.DecodeString text = (decoded, None) →
  let h1 := snd (postJson env c (endpoint env c "/accessToken")
                   (PAccessToken (accessToken_request c)) h) in
  let file := AccessTokenFile (Client_Config c) in
  GetAccessToken env c h =
    if (0 <? String.length file)%nat
    then ((with_accessToken (Some decoded) c,
           ioutil_WriteFile env h1 file (bytes_of_string text) 384),
          h1 ++ [EvWriteFile file (bytes_of_string text) 384])
    else ((with_accessToken (Some decoded) c, None), h1).
Proof.
  intros Hcheck Hans H200 Hread Htext Hdecode h1 file.
  pose proof (postJson_answered env c h _ _ response Hans) as H.
  rewrite H200, Hread in H. subst h1.
  unfold GetAccessToken. rewrite Hcheck. io_unfold.
  destruct (postJson env c _ _ h) as [[body err] h']. simpl in H.
  injection H as -> ->. simpl. rewrite Htext, Hdecode. subst file. simpl.
  by destruct (0 <? String.length (AccessTokenFile (Client_Config c)))%nat.
Qed.

(** [GetAccessToken] changes nothing of the client but the credential, and
    the credential either stays or becomes a result of [DecodeString]: it is
    never cleared. *)
Theorem GetAccessToken_frame c h :
  let c' := fst (fst (GetAccessToken env c h)) in
  Client_Config c' = Client_Config c
  ∧ remote c' = remote c
  ∧ transport c' = transport c
  ∧ dnsServers c' = dnsServers c
  ∧ authorizedPins c' = authorizedPins c
  ∧ (c' = c
     ∨ ∃ text,
         accessToken c' = Some (fst (Base64.DecodeString text))).
Proof.
  unfold GetAccessToken.
  destruct (AccessTokenRequest_Check env (accessToken_request c));
    [by repeat split; auto |].
  io_unfold. destruct (postJson env c _ _ h) as [[body [err |]] h'];
    [by repeat split; auto |].
  destruct (json_Unmarshal_string env (slice_or_empty body)) as [text | err];
    [| by repeat split; auto].
  destruct (Base64.DecodeString text) as [decoded derr] eqn:Hdecode.
  assert (decoded = fst (Base64.DecodeString text)) as Hd
    by (by rewrite Hdecode).
  destruct derr; simpl.
  - repeat split; try done. right. exists text. by rewrite <- Hd.
  - destruct (0 <? String.length (AccessTokenFile (Client_Config c)))%nat;
      simpl; repeat split; try done; right; exists text; by rewrite <- Hd.
Qed.

(** A refresh that returns nil with a file configured has written the file,
    and a client constructed afterwards from a configuration with that file
    holds the same credential, provided the file reads as it was written. *)
Theorem token_survives_restart c h c1 h1 :
  AccessTokenFile (Client_Config c) ≠ "" →
  GetAccessToken env c h = ((c1, None), h1) →
  ∃ data,
    last h1 = Some (EvWriteFile (AccessTokenFile (Client_Config c)) data 384)
    ∧ ∀ config h2 roots h3,
        AccessTokenFile config = AccessTokenFile (Client_Config c) →
        load_RootCAs env config h2 = (Ok roots, h3) →
        os_ReadFile env h3 (AccessTokenFile config) = Ok data →
        ∃ c2,
          fst (NewClient env config h2) = (Some c2, None)
          ∧ accessToken c2 = accessToken c1.
Proof.
  intros Hfile. unfold GetAccessToken.
  destruct (AccessTokenRequest_Check env (accessToken_request c)); [done |].
  io_unfold. destruct (postJson env c _ _ h) as [[body [err |]] h'];
    [done |].
  destruct (json_Unmarshal_string env (slice_or_empty body)) as [text | err];
    [| done].
  destruct (Base64.DecodeString text) as [decoded [derr |]] eqn:Hdecode;
    [done |].
  simpl. rewrite (nonempty_len _ Hfile). intros [= <- Hwrite <-].
  exists (bytes_of_string text). split; [by rewrite last_snoc |].
  intros config h2 roots h3 Hsame Hroots Hdata.
  destruct (NewClient_roots env config h2 roots h3 Hroots)
    as (c2 & Hc2 & Htoken).
  exists c2. rewrite Hc2. split; [done |]. rewrite Htoken.
  unfold load_accessToken. rewrite Hsame, (nonempty_len _ Hfile). io_unfold.
  rewrite <- Hsame, Hdata. simpl.
  unfold string_of_bytes, bytes_of_string.
  by rewrite string_of_list_byte_of_string, Hdecode.
Qed.

End MoreCredential.

Section MorePinning.

Context {rest_Filter : Type}.
Implicit Types (c : @Client rest_Filter) (h : list Event)
  (chain : list Certificate) (chains : list (list Certificate)).

Lemma Pins_chain_sound c chain h :
  fst (Pins_chain c chain h) = None →
  ∀ certificate, certificate ∈ chain → IsCA certificate = true →
    subject_pinned c certificate.
Proof.
  revert h. induction chain as [| first rest IH]; intros h Hnil cert Hin HCA.
  - by apply elem_of_nil in Hin.
  - simpl in Hnil. apply elem_of_cons in Hin.
    destruct (IsCA first) eqn:Hfirst; simpl in Hnil.
    + destruct (pin_listed _ _ _) eqn:Hlisted; [| done].
      io_unfold. destruct Hin as [-> | Hin].
      * by apply pin_listed_table.
      * by eapply IH.
    + destruct Hin as [-> | Hin]; [congruence | by eapply IH].
Qed.

(** The converse of the acceptance: when [Pins] returns nil, every CA
    certificate of every chain is in the table under the common name of its
    subject and with its pin. *)
Theorem Pins_sound c rawCerts chains h :
  fst (Pins c rawCerts chains h) = None →
  every_CA (subject_pinned c) chains.
Proof.
  unfold Pins. revert h.
  induction chains as [| first rest IH]; intros h Hnil chain cert Hchain.
  - by apply elem_of_nil in Hchain.
  - simpl in Hnil. io_unfold.
    pose proof (Pins_chain_sound c first h) as Hfirst.
    destruct (Pins_chain c first h) as [[err |] h']; [done |].
    apply elem_of_cons in Hchain. destruct Hchain as [-> | Hchain].
    + by apply Hfirst.
    + by eapply IH.
Qed.

(** Chains without CA certificate pass unseen: [Pins] returns nil and
    prints nothing. The empty list of chains and empty chains are the
    simplest of them. *)
Theorem Pins_no_CA c rawCerts chains h :
  (∀ chain certificate,
     chain ∈ chains → certificate ∈ chain → IsCA certificate = false) →
  Pins c rawCerts chains h = (None, h).
Proof.
  unfold Pins. rewrite Pins_chains_leaves. intros Hleaf.
  assert (map (List.filter IsCA) chains = map (λ _, []) chains) as ->.
  { apply map_ext_in. intros chain Hchain.
    apply list_elem_of_In in Hchain.
    assert (∀ cert, cert ∈ chain → IsCA cert = false) as H
      by (intros; by eapply Hleaf).
    clear -H. induction chain as [| cert rest IH]; [done |].
    simpl. rewrite (H cert) by left. apply IH. intros. apply H. by right. }
  clear. revert h. induction chains as [| chain rest IH]; intros h; [done |].
  simpl. io_unfold. apply IH.
Qed.

Lemma Pins_chain_log c chain h :
  ∃ log,
    snd (Pins_chain c chain h) = h ++ log
    ∧ forallb is_println log = true
    ∧ (fst (Pins_chain c chain h) = None →
       length log = length (List.filter IsCA chain)).
Proof.
  revert h. induction chain as [| cert rest IH]; intros h.
  - exists []. by rewrite app_nil_r.
  - simpl. destruct (IsCA cert); simpl; [| apply IH].
    destruct (pin_listed _ _ _); io_unfold.
    + destruct (IH (h ++ [EvPrintln (String.concat " "
                   ["Pins:"; CommonName (Subject cert); "pin OK"])]))
        as (log & Hlog & Hp & Hn).
      eexists (_ :: log). rewrite Hlog, <- app_assoc.
      split; [done |]. split; [done |]. intros Hnil. simpl. by rewrite Hn.
    + eexists [_]. by simpl; auto.
Qed.

(** [Pins] only prints: its events are diagnostics, and when it returns nil
    there is one of them for each CA certificate of the chains. *)
Theorem Pins_diagnostics c rawCerts chains h :
  ∃ log,
    snd (Pins c rawCerts chains h) = h ++ log
    ∧ forallb is_println log = true
    ∧ (fst (Pins c rawCerts chains h) = None →
       length log = length (List.filter IsCA (concat chains))).
Proof.
  unfold Pins. revert h. induction chains as [| chain rest IH]; intros h.
  - exists []. by rewrite app_nil_r.
  - simpl. io_unfold.
    destruct (Pins_chain_log c chain h) as (log1 & H1 & Hp1 & Hn1).
    destruct (Pins_chain c chain h) as [[err |] h1]; simpl in H1; subst h1.
    + exists log1. by simpl; auto.
    + destruct (IH (h ++ log1)) as (log2 & H2 & Hp2 & Hn2).
      exists (log1 ++ log2). rewrite H2, <- app_assoc.
      split; [done |]. rewrite forallb_app, Hp1, Hp2.
      split; [done |]. intros Hnil.
      rewrite List.filter_app, !length_app.
      by rewrite Hn1, Hn2.
Qed.

(** Go ranges over the table in an order that changes from run to run: in
    whatever order the entries come, the loop finds a pair for a certificate
    exactly when the table maps the common name of its subject to its
    pin. *)
Theorem pin_listed_any_order c entries certificate :
  entries ≡ₚ map_to_list (authorizedPins c) →
  pin_listed entries (CommonName (Subject certificate))
    (certificate_pin certificate) = true
  ↔ subject_pinned c certificate.
Proof.
  intros Hperm.
  rewrite (pin_listed_Permutation _ _ _ _ Hperm). apply pin_listed_table.
Qed.

End MorePinning.

Section HostSuffix.

Context {rest_Filter : Type}.
Implicit Types (c : @Client rest_Filter).

Lemma substring_prefix (s t : string) :
  substring 0 (String.length s) (s +:+ t) = s.
Proof. induction s as [| ch r IH]; simpl; [by destruct t | by rewrite IH]. Qed.

Lemma substring_all (t : string) : substring 0 (String.length t) t = t.
Proof. induction t as [| ch r IH]; simpl; [done | by rewrite IH]. Qed.

Lemma substring_suffix (s t : string) :
  substring (String.length s) (String.length t) (s +:+ t) = t.
Proof.
  induction s as [| ch r IH]; simpl; [apply substring_all | exact IH].
Qed.

Lemma length_append (s t : string) :
  String.length (s +:+ t) = (String.length s + String.length t)%nat.
Proof. induction s as [| ch r IH]; simpl; [done | by rewrite IH]. Qed.

(** [strings.TrimSuffix] takes one occurrence of the suffix off. *)
Lemma strings_TrimSuffix_app (s suffix : string) :
  strings_TrimSuffix (s +:+ suffix) suffix = s.
Proof.
  unfold strings_TrimSuffix, strings_HasSuffix. rewrite length_append.
  replace (String.length s + String.length suffix - String.length suffix)%nat
    with (String.length s) by lia.
  rewrite substring_suffix, String.eqb_refl, substring_prefix.
  by destruct (Nat.leb_spec (String.length suffix)
                 (String.length s + String.length suffix)); [| lia].
Qed.

(** The host of the three requests is the configured host without its
    suffix ".hideservers.net"; the suffix is taken off once. *)
Theorem requests_Host c name key sessionToken :
  Host (Client_Config c) = name +:+ ".hideservers.net" →
  ConnectRequest_Host (connect_request c key) = name
  ∧ DisconnectRequest_Host (disconnect_request c sessionToken) = name
  ∧ AccessTokenRequest_Host (accessToken_request c) = name.
Proof.
  intros Hhost. unfold connect_request, disconnect_request,
    accessToken_request, trimmed_Host. simpl.
  by rewrite Hhost, strings_TrimSuffix_app.
Qed.

End HostSuffix.

(** * The standard encoding read back

    [DecodeString] undoes [EncodeToString]: the four characters of a group
    give back its 24 bits, and the padding of the last group gives back one
    or two bytes. *)

Lemma testbit_high val k n : 0 <= val < 2 ^ k -> 0 <= k <= n -> Z.testbit val n = false.
Proof.
  intros Hval Hn. rewrite <- (Z.mod_small val (2 ^ k)) by lia.
  apply Z.mod_pow2_bits_high. lia.
Qed.

Lemma sextet_bit val k n :
  0 <= n -> 0 <= k ->
  Z.testbit (Z.shiftl (Z.land (Z.shiftr val k) 63) k) n
    = Z.testbit val n && (k <=? n) && (n <? k + 6).
Proof.
  intros Hn Hk. rewrite Z.shiftl_spec by lia.
  destruct (Z.leb_spec k n).
  - rewrite Z.land_spec, Z.shiftr_spec by lia.
    replace (n - k + k) with n by lia.
    change 63 with (Z.ones 6). rewrite Z.testbit_ones_nonneg by lia.
    rewrite andb_true_r. f_equal.
    destruct (Z.ltb_spec (n - k) 6), (Z.ltb_spec n (k + 6)); try reflexivity; lia.
  - rewrite Z.testbit_neg_r by lia. rewrite andb_false_r. reflexivity.
Qed.

Lemma sextets val :
  0 <= val < 2 ^ 24 ->
  Z.lor (Z.lor (Z.lor (Z.shiftl (Z.land (Z.shiftr val 18) 63) 18)
                      (Z.shiftl (Z.land (Z.shiftr val 12) 63) 12))
               (Z.shiftl (Z.land (Z.shiftr val 6) 63) 6))
        (Z.land val 63) = val.
Proof.
  intros Hval. apply Z.bits_inj'. intros n Hn.
  rewrite !Z.lor_spec, !sextet_bit by lia.
  rewrite Z.land_spec. change 63 with (Z.ones 6).
  rewrite Z.testbit_ones_nonneg by lia.
  destruct (Z.lt_ge_cases n 24) as [Hlt | Hge].
  - destruct (Z.testbit val n); simpl; [| reflexivity].
    destruct (Z.leb_spec 18 n), (Z.leb_spec 12 n), (Z.leb_spec 6 n),
      (Z.ltb_spec n (18 + 6)), (Z.ltb_spec n (12 + 6)), (Z.ltb_spec n (6 + 6)),
      (Z.ltb_spec n 6); simpl; try reflexivity; lia.
  - rewrite (testbit_high val 24 n) by lia. reflexivity.
Qed.

Lemma byte_val_range (b : byte) : 0 <= byte_val b < 256.
Proof. unfold byte_val. pose proof (Byte.to_N_bounded b). lia. Qed.

Lemma byte_of_Z_val (b : byte) : byte_of_Z (byte_val b) = b.
Proof.
  unfold byte_of_Z. rewrite Z.mod_small by apply byte_val_range.
  unfold byte_val. by rewrite N2Z.id, Byte.of_to_N.
Qed.

Lemma byte_of_Z_mod (z : Z) (b : byte) :
  z mod 256 = byte_val b → byte_of_Z z = b.
Proof.
  intros H. rewrite <- (byte_of_Z_val b), <- H. unfold byte_of_Z.
  by rewrite Z.mod_mod.
Qed.

Lemma enc_char_decodeMap (v : Z) :
  Base64.decodeMap (Base64.enc_char v) = Some (Z.land v 63).
Proof.
  unfold Base64.enc_char.
  assert (0 <= Z.land v 63 < 64) as Hrange.
  { change 63 with (Z.ones 6). rewrite Z.land_ones by lia.
    apply Z.mod_pos_bound. lia. }
  rewrite <- (Z2Nat.id (Z.land v 63)) at 2 by lia.
  assert (Z.to_nat (Z.land v 63) < 64)%nat as Hn by lia.
  remember (Z.to_nat (Z.land v 63)) as n eqn:Heqn. clear Heqn Hrange.
  do 64 (destruct n as [| n]; [vm_compute; reflexivity |]). lia.
Qed.

Lemma decodeQuantum_step c r si dbuf out :
  Base64.decodeMap c = Some out →
  Base64.decodeQuantum (c :: r) si dbuf =
    if Z.of_nat (length dbuf) =? 3
    then Base64.QuantumResult r (si + 1) (Base64.assemble (dbuf ++ [out])) None
    else Base64.decodeQuantum r (si + 1) (dbuf ++ [out]).
Proof. intros H. cbn [Base64.decodeQuantum]. by rewrite H. Qed.

Lemma triple_bit x y z n :
  0 <= x < 256 → 0 <= y < 256 → 0 <= z < 256 → 0 <= n →
  Z.testbit (triple x y z) n =
    if n <? 8 then Z.testbit z n
    else if n <? 16 then Z.testbit y (n - 8)
    else Z.testbit x (n - 16).
Proof.
  intros Hx Hy Hz Hn. unfold triple.
  rewrite !Z.lor_spec, !Z.shiftl_spec by lia.
  destruct (Z.ltb_spec n 8); [| destruct (Z.ltb_spec n 16)].
  - by rewrite !Z.testbit_neg_r by lia.
  - rewrite (Z.testbit_neg_r x) by lia.
    rewrite (testbit_high z 8 n) by lia. by rewrite orb_false_r.
  - rewrite (testbit_high z 8 n), (testbit_high y 8 (n - 8)) by lia.
    by rewrite !orb_false_r.
Qed.

Lemma triple_range x y z :
  0 <= x < 256 → 0 <= y < 256 → 0 <= z < 256 → 0 <= triple x y z < 2 ^ 24.
Proof.
  intros Hx Hy Hz.
  assert (triple x y z mod 2 ^ 24 = triple x y z) as <-.
  { apply Z.bits_inj'. intros n Hn.
    destruct (Z.lt_ge_cases n 24).
    - by rewrite Z.mod_pow2_bits_low by lia.
    - rewrite Z.mod_pow2_bits_high by lia.
      rewrite triple_bit by lia.
      destruct (Z.ltb_spec n 8); [lia |]. destruct (Z.ltb_spec n 16); [lia |].
      by rewrite (testbit_high x 8) by lia. }
  apply Z.mod_pos_bound. lia.
Qed.

Lemma triple_bytes x y z :
  0 <= x < 256 → 0 <= y < 256 → 0 <= z < 256 →
  Z.shiftr (triple x y z) 16 mod 256 = x
  ∧ Z.shiftr (triple x y z) 8 mod 256 = y
  ∧ triple x y z mod 256 = z.
Proof.
  intros Hx Hy Hz. change 256 with (2 ^ 8).
  repeat split; apply Z.bits_inj'; intros n Hn;
    (destruct (Z.lt_ge_cases n 8);
     [ rewrite Z.mod_pow2_bits_low by lia
     | rewrite Z.mod_pow2_bits_high by lia ]);
    rewrite ?Z.shiftr_spec by lia; rewrite ?triple_bit by lia.
  - destruct (Z.ltb_spec (n + 16) 8); [lia |].
    destruct (Z.ltb_spec (n + 16) 16); [lia |]. f_equal. lia.
  - by rewrite (testbit_high x 8) by lia.
  - destruct (Z.ltb_spec (n + 8) 8); [lia |].
    destruct (Z.ltb_spec (n + 8) 16); [| lia]. f_equal. lia.
  - by rewrite (testbit_high y 8) by lia.
  - by destruct (Z.ltb_spec n 8); [| lia].
  - by rewrite (testbit_high z 8) by lia.
Qed.

Lemma triple_low_zero x y :
  0 <= x < 256 → 0 <= y < 256 →
  Z.land (triple x y 0) 63 = 0
  ∧ Z.land (Z.shiftr (triple x 0 0) 6) 63 = 0.
Proof.
  intros Hx Hy. change 63 with (Z.ones 6).
  split; apply Z.bits_inj'; intros n Hn;
    rewrite Z.land_spec, Z.bits_0, ?Z.shiftr_spec by lia;
    rewrite triple_bit by lia;
    (destruct (Z.lt_ge_cases n 6);
     [| by rewrite Z.testbit_ones_nonneg, andb_comm by lia;
           destruct (Z.ltb_spec n 6); [lia |]]).
  - destruct (Z.ltb_spec n 8); [| lia]. by rewrite Z.bits_0.
  - destruct (Z.ltb_spec (n + 6) 8); [by rewrite Z.bits_0 |].
    destruct (Z.ltb_spec (n + 6) 16); [| lia]. by rewrite Z.bits_0.
Qed.

Lemma decodeQuantum_more c r si dbuf out :
  Base64.decodeMap c = Some out → (length dbuf < 3)%nat →
  Base64.decodeQuantum (c :: r) si dbuf
    = Base64.decodeQuantum r (si + 1) (dbuf ++ [out]).
Proof.
  intros H Hlen. rewrite (decodeQuantum_step c r si dbuf out H).
  by destruct (Z.eqb_spec (Z.of_nat (length dbuf)) 3); [lia |].
Qed.

Lemma decodeQuantum_last c r si dbuf out :
  Base64.decodeMap c = Some out → length dbuf = 3%nat →
  Base64.decodeQuantum (c :: r) si dbuf
    = Base64.QuantumResult r (si + 1) (Base64.assemble (dbuf ++ [out])) None.
Proof.
  intros H Hlen. rewrite (decodeQuantum_step c r si dbuf out H).
  by rewrite Hlen.
Qed.

Lemma quantum_full val rest si :
  0 <= val < 2 ^ 24 →
  Base64.decodeQuantum
    (Base64.enc_char (Z.shiftr val 18) :: Base64.enc_char (Z.shiftr val 12)
       :: Base64.enc_char (Z.shiftr val 6) :: Base64.enc_char val :: rest)
    si []
  = Base64.QuantumResult rest (si + 1 + 1 + 1 + 1)
      [byte_of_Z (Z.shiftr val 16); byte_of_Z (Z.shiftr val 8); byte_of_Z val]
      None.
Proof.
  intros Hval.
  rewrite (decodeQuantum_more _ _ _ _ _ (enc_char_decodeMap _)) by (simpl; lia).
  rewrite (decodeQuantum_more _ _ _ _ _ (enc_char_decodeMap _)) by (simpl; lia).
  rewrite (decodeQuantum_more _ _ _ _ _ (enc_char_decodeMap _)) by (simpl; lia).
  rewrite (decodeQuantum_last _ _ _ _ _ (enc_char_decodeMap _)) by reflexivity.
  unfold Base64.assemble. cbn [app nth length firstn Nat.sub].
  by rewrite (sextets val Hval).
Qed.

Lemma quantum_pad1 val si :
  0 <= val < 2 ^ 24 → Z.land val 63 = 0 →
  Base64.decodeQuantum
    [Base64.enc_char (Z.shiftr val 18); Base64.enc_char (Z.shiftr val 12);
     Base64.enc_char (Z.shiftr val 6); Base64.padChar]
    si []
  = Base64.QuantumResult [] (si + 1 + 1 + 1 + 1)
      [byte_of_Z (Z.shiftr val 16); byte_of_Z (Z.shiftr val 8)] None.
Proof.
  intros Hval Hlow.
  rewrite (decodeQuantum_more _ _ _ _ _ (enc_char_decodeMap _)) by (simpl; lia).
  rewrite (decodeQuantum_more _ _ _ _ _ (enc_char_decodeMap _)) by (simpl; lia).
  rewrite (decodeQuantum_more _ _ _ _ _ (enc_char_decodeMap _)) by (simpl; lia).
  cbn [app].
  change (Base64.decodeQuantum [Base64.padChar] (si + 1 + 1 + 1) ?d)
    with (Base64.QuantumResult [] (si + 1 + 1 + 1 + 1) (Base64.assemble d) None).
  unfold Base64.assemble. cbn [app nth length firstn Nat.sub].
  pose proof (sextets val Hval) as Hs. rewrite Hlow in Hs. by rewrite Hs.
Qed.

Lemma quantum_pad2 val si :
  0 <= val < 2 ^ 24 → Z.land val 63 = 0 → Z.land (Z.shiftr val 6) 63 = 0 →
  Base64.decodeQuantum
    [Base64.enc_char (Z.shiftr val 18); Base64.enc_char (Z.shiftr val 12);
     Base64.padChar; Base64.padChar]
    si []
  = Base64.QuantumResult [] (si + 1 + 1 + 1 + 1)
      [byte_of_Z (Z.shiftr val 16)] None.
Proof.
  intros Hval Hlow Hmid.
  rewrite (decodeQuantum_more _ _ _ _ _ (enc_char_decodeMap _)) by (simpl; lia).
  rewrite (decodeQuantum_more _ _ _ _ _ (enc_char_decodeMap _)) by (simpl; lia).
  cbn [app].
  change (Base64.decodeQuantum [Base64.padChar; Base64.padChar] (si + 1 + 1) ?d)
    with (Base64.QuantumResult [] (si + 1 + 1 + 1 + 1) (Base64.assemble d) None).
  unfold Base64.assemble. cbn [app nth length firstn Nat.sub].
  pose proof (sextets val Hval) as Hs. rewrite Hlow, Hmid in Hs.
  by rewrite Hs.
Qed.

Lemma decode_loop_nil fuel si acc :
  Base64.decode_loop fuel [] si acc = (acc, None).
Proof. by destruct fuel. Qed.

Lemma decode_encode_loop (n : nat) :
  ∀ (b acc : list byte) (fuel : nat) (si : Z),
    (length b <= n)%nat → (length b <= fuel)%nat →
    Base64.decode_loop fuel (list_ascii_of_string (Base64.encode b)) si acc
      = (acc ++ b, None).
Proof.
  induction n as [| n IH]; intros b acc fuel si Hn Hfuel.
  { destruct b; [| simpl in Hn; lia]. simpl. rewrite decode_loop_nil.
    by rewrite app_nil_r. }
  destruct b as [| b0 [| b1 [| b2 r]]].
  - simpl. rewrite decode_loop_nil. by rewrite app_nil_r.
  - destruct fuel as [| fuel]; [simpl in Hfuel; lia |].
    pose proof (byte_val_range b0) as H0.
    destruct (triple_low_zero (byte_val b0) 0) as [Hlow Hmid]; [lia.. |].
    destruct (triple_bytes (byte_val b0) 0 0) as (Hx & _ & _); [lia.. |].
    cbn [Base64.encode list_ascii_of_string].
    replace (Z.shiftl (byte_val b0) 16) with (triple (byte_val b0) 0 0)
      by (unfold triple; by rewrite Z.shiftl_0_l, !Z.lor_0_r).
    cbn [Base64.decode_loop].
    rewrite quantum_pad2 by (try apply triple_range; try done; lia).
    cbn [Base64.q_err Base64.q_rest Base64.q_si Base64.q_out].
    rewrite decode_loop_nil. by rewrite (byte_of_Z_mod _ b0 Hx).
  - destruct fuel as [| fuel]; [simpl in Hfuel; lia |].
    pose proof (byte_val_range b0) as H0. pose proof (byte_val_range b1) as H1.
    destruct (triple_low_zero (byte_val b0) (byte_val b1)) as [Hlow _];
      [lia.. |].
    destruct (triple_bytes (byte_val b0) (byte_val b1) 0) as (Hx & Hy & _);
      [lia.. |].
    cbn [Base64.encode list_ascii_of_string].
    replace (Z.lor (Z.shiftl (byte_val b0) 16) (Z.shiftl (byte_val b1) 8))
      with (triple (byte_val b0) (byte_val b1) 0)
      by (unfold triple; by rewrite Z.lor_0_r).
    cbn [Base64.decode_loop].
    rewrite quantum_pad1 by (try apply triple_range; try done; lia).
    cbn [Base64.q_err Base64.q_rest Base64.q_si Base64.q_out].
    rewrite decode_loop_nil.
    by rewrite (byte_of_Z_mod _ b0 Hx), (byte_of_Z_mod _ b1 Hy).
  - destruct fuel as [| fuel]; [simpl in Hfuel; lia |].
    pose proof (byte_val_range b0) as H0. pose proof (byte_val_range b1) as H1.
    pose proof (byte_val_range b2) as H2.
    destruct (triple_bytes (byte_val b0) (byte_val b1) (byte_val b2))
      as (Hx & Hy & Hz); [lia.. |].
    cbn [Base64.encode list_ascii_of_string].
    fold (triple (byte_val b0) (byte_val b1) (byte_val b2)).
    cbn [Base64.decode_loop].
    rewrite quantum_full by (apply triple_range; lia).
    cbn [Base64.q_err Base64.q_rest Base64.q_si Base64.q_out].
    rewrite (byte_of_Z_mod _ b0 Hx), (byte_of_Z_mod _ b1 Hy),
      (byte_of_Z_mod _ b2 Hz).
    rewrite IH by (simpl in *; lia).
    by rewrite <- app_assoc.
Qed.

Lemma encode_length (b : list byte) :
  (length b <= String.length (Base64.encode b))%nat.
Proof.
  assert (∀ n b, (length b <= n)%nat →
            (length b <= String.length (Base64.encode b))%nat) as H.
  { clear b. induction n as [| n IH]; intros b Hn.
    - destruct b; simpl in *; lia.
    - destruct b as [| b0 [| b1 [| b2 r]]]; cbn [Base64.encode String.length length];
        try lia.
      specialize (IH r). simpl in Hn. lia. }
  by apply (H (length b)).
Qed.

Theorem DecodeString_EncodeToString (b : list byte) :
  Base64.DecodeString (Base64.EncodeToString b) = (b, None).
Proof.
  unfold Base64.DecodeString, Base64.EncodeToString.
  apply (decode_encode_loop (length b) b []); [done | apply encode_length].
Qed.

Section EncodedCredential.

Context {rest_Filter ConnectResponse : Type}.
Variable env : @Env rest_Filter ConnectResponse.
Implicit Types (c : @Client rest_Filter) (h : list Event)
  (response : Response) (config : @Config rest_Filter) (b : bytes).

(** When the server answers 200 with the JSON string that is the standard
    base64 of the bytes [b], the credential of the client after
    [GetAccessToken] is [b], whatever the bytes are. *)
Theorem GetAccessToken_encoded c h response b :
  AccessTokenRequest_Check env (accessToken_request c) = None →
  answers env h (endpoint env c "/accessToken")
    (PAccessToken (accessToken_request c)) response →
  StatusCode response = 200 →
  snd (ReadAll response) = None →
  json_Unmarshal_string env (fst (ReadAll response))
    = Ok (Base64.EncodeToString b) →
  accessToken (fst (fst (GetAccessToken env c h))) = Some b
  ∧ HaveAccessToken (fst (fst (GetAccessToken env c h))) = true.
Proof.
  intros Hcheck Hans H200 Hread Htext.
  pose proof (GetAccessToken_success env c h response _ b Hcheck Hans H200
                Hread Htext (DecodeString_EncodeToString b)) as Htoken.
  split; [done |]. unfold HaveAccessToken. by rewrite Htoken.
Qed.

(** A credential file that holds the standard base64 of the bytes [b] gives
    a client whose credential is [b]. *)
Theorem NewClient_encoded_file config h roots h1 b :
  AccessTokenFile config ≠ "" →
  load_RootCAs env config h = (Ok roots, h1) →
  os_ReadFile env h1 (AccessTokenFile config)
    = Ok (bytes_of_string (Base64.EncodeToString b)) →
  ∃ c,
    fst (NewClient env config h) = (Some c, None)
    ∧ accessToken c = Some b
    ∧ HaveAccessToken c = true.
Proof.
  intros Hfile Hroots Hdata.
  destruct (NewClient_roots env config h roots h1 Hroots)
    as (c & Hc & Htoken).
  assert (accessToken c = Some b) as Hb.
  { rewrite Htoken. unfold load_accessToken.
    rewrite (nonempty_len _ Hfile). io_unfold. rewrite Hdata. simpl.
    unfold string_of_bytes, bytes_of_string.
    by rewrite string_of_list_byte_of_string, DecodeString_EncodeToString. }
  exists c. rewrite Hc. split; [done |]. split; [done |].
  unfold HaveAccessToken. by rewrite Hb.
Qed.

End EncodedCredential.

(** * The further properties on concrete inputs *)

Module More.

Import Example Fixtures.

(** A CA bundle that does not exist. *)
Lemma NewClient_missing_CA :
  NewClient (env_of silent) (full_config "ca.pem" "" "accessToken.txt" 0) []
    = ((None, Some no_such_file), [EvReadFile "ca.pem"]).
Proof.
  assert (CA (full_config "ca.pem" "" "accessToken.txt" 0) ≠ "") as HCA
    by discriminate.
  exact (proj1 (NewClient_CA_failure (env_of silent)
                  (full_config "ca.pem" "" "accessToken.txt" 0) [] HCA)
               no_such_file eq_refl).
Defined.

(** Two DNS servers; the environment trims nothing. *)
Lemma NewClient_two_servers :
  let k := full_config "" "9.9.9.9:53,1.1.1.1:53" "" 0 in
  ∃ c,
    fst (fst (NewClient (env_of silent) k [])) = Some c
    ∧ dnsServers c = ["9.9.9.9:53"; "1.1.1.1:53"]
    ∧ dnsServers c ≠ [].
Proof.
  intros k.
  eexists. split; [reflexivity |]. split; [reflexivity |].
  exact (proj1 (NewClient_dnsServers (env_of silent) k [] _ eq_refl)).
Defined.


(** The mark 7 is set on the socket, which is then connected. *)
Lemma dialContext_marked :
  let c := new_client (config "203.0.113.9" 432 7 "") in
  0 < FirewallMark (Client_Config c)
  ∧ dialContext (env_of silent) c "tcp" "203.0.113.9:432" []
    = (Returns (Ok 3),
       [EvSocket "tcp" "203.0.113.9:432"; EvRawControl 3;
        EvSetsockoptInt 3 1 36 7; EvConnect 3 "203.0.113.9:432"]).
Proof.
  split; [reflexivity |].
  refine (dialContext_marks_before_connect (env_of silent)
            (new_client (config "203.0.113.9" 432 7 ""))
            "tcp" "203.0.113.9:432" [] "203.0.113.9:432" [] 3
            eq_refl _ eq_refl eq_refl eq_refl).
  split; reflexivity.
Defined.

(** A raw connection that is closed: no mark, and the dial goes on. *)
Lemma dialContext_closed_socket :
  let c := new_client (config "203.0.113.9" 432 7 "") in
  0 < FirewallMark (Client_Config c)
  ∧ dialContext closed_sockets c "tcp" "203.0.113.9:432" []
    = (Returns (Ok 3),
       [EvSocket "tcp" "203.0.113.9:432"; EvRawControl 3;
        EvConnect 3 "203.0.113.9:432"]).
Proof.
  split; [reflexivity |].
  refine (dialContext_control_error_ignored closed_sockets
            (new_client (config "203.0.113.9" 432 7 ""))
            "tcp" "203.0.113.9:432" [] "203.0.113.9:432" [] 3 EBADF
            eq_refl _ eq_refl eq_refl).
  split; reflexivity.
Defined.

(** A negative mark installs no hook, even where marks are refused. *)
Lemma dialContext_negative_mark :
  let c := new_client (config "203.0.113.9" 432 (-1) "") in
  FirewallMark (Client_Config c) ≤ 0
  ∧ dialContext (env_of mark_refused) c "tcp" "203.0.113.9:432" []
    = (Returns (Ok 3),
       [EvSocket "tcp" "203.0.113.9:432"; EvConnect 3 "203.0.113.9:432"]).
Proof.
  assert (FirewallMark
            (Client_Config (new_client (config "203.0.113.9" 432 (-1) ""))) ≤ 0)
    as Hmark by (simpl; lia).
  split; [exact Hmark |].
  refine (dialContext_unmarked (env_of mark_refused)
            (new_client (config "203.0.113.9" 432 (-1) ""))
            "tcp" "203.0.113.9:432" [] "203.0.113.9:432" [] 3
            Hmark _ eq_refl).
  split; reflexivity.
Defined.

(** A connect endpoint that answers 200: the response is the body. *)
Lemma Connect_200 :
  fst (Connect (env_of (server 200 (bytes_of_string "{}"))) (new_client nl)
         key [])
    = (Some (bytes_of_string "{}"), None).
Proof.
  exact (Connect_outcome (env_of (server 200 (bytes_of_string "{}")))
           (new_client nl) key [] _ eq_refl
           (Run.server_answers 200 (bytes_of_string "{}") _ _) eq_refl).
Defined.

(** A status 200: [Disconnect] returns nil whatever the body is. *)
Lemma Disconnect_200 :
  fst (Disconnect (env_of (server 200 (bytes_of_string "anything")))
         (new_client nl) None [])
  = None.
Proof.
  exact (proj2 (Disconnect_outcome
                  (env_of (server 200 (bytes_of_string "anything")))
                  (new_client nl) None [])
           _ eq_refl
           (ex_intro _ [] (conj eq_refl (conj eq_refl eq_refl)))
           eq_refl).
Defined.

(** A body "false" followed by a line feed is not the refusal. *)
Lemma ApplyFilter_false_newline :
  fst (ApplyFilter (env_of (server 200 (bytes_of_string ("false" +:+ LF))))
         (new_client nl) [])
    = None.
Proof.
  refine (proj2 (ApplyFilter_accepted
                   (env_of (server 200 (bytes_of_string ("false" +:+ LF))))
                   (new_client nl) [])
                _ eq_refl
                (Run.server_answers 200 (bytes_of_string ("false" +:+ LF)) _ _)
                eq_refl _).
  discriminate.
Defined.

(** The example of the spec, followed by a connect request. *)
Lemma Resolve_then_Connect_url :
  let env := env_of silent in
  let c' := fst (fst (Resolve env (new_client literal) [])) in
  ∃ log,
    snd (Connect env c' key [])
      = EvHttpDo (post_request "https://203.0.113.9:432/v1.0.0/connect" [])
          :: log
    ∧ forallb is_println log = true.
Proof.
  refine (Resolve_then_Connect (env_of silent) (new_client literal) []
            _ key [] eq_refl _ eq_refl eq_refl eq_refl).
  discriminate.
Defined.

(** A refresh that stores [ABC] and writes [QUJD] to the file. *)
Lemma GetAccessToken_writes_file :
  let env := env_of token_world in
  let c := new_client nl_with_file in
  let post :=
    EvHttpDo (post_request "https://<nil>/v1.0.0/accessToken" []) in
  GetAccessToken env c []
    = ((with_accessToken (Some (bytes_of_string "ABC")) c, None),
       [post; EvWriteFile "accessToken.txt" (bytes_of_string "QUJD") 384]).
Proof.
  exact (GetAccessToken_persists (env_of token_world)
           (new_client nl_with_file) [] _ "QUJD" (bytes_of_string "ABC")
           eq_refl
           (ex_intro _ [] (conj eq_refl (conj eq_refl eq_refl)))
           eq_refl eq_refl eq_refl eq_refl).
Defined.

(** The credential of that refresh is the one of the next construction. *)
Lemma token_after_restart :
  let env := env_of token_world in
  let c1 := fst (fst (GetAccessToken env (new_client nl_with_file) [])) in
  ∃ c2,
    fst (NewClient env nl_with_file []) = (Some c2, None)
    ∧ accessToken c2 = accessToken c1.
Proof.
  intros env c1.
  assert (AccessTokenFile (Client_Config (new_client nl_with_file)) ≠ "")
    as Hfile by discriminate.
  destruct (token_survives_restart env (new_client nl_with_file) [] c1 _
              Hfile eq_refl) as (data & Hlast & Hnext).
  injection Hlast as <-.
  exact (Hnext nl_with_file [] None [] eq_refl eq_refl eq_refl).
Defined.

Lemma root_chain_passes :
  fst (Pins (new_client nl) [] [[leaf; root]] []) = None.
Proof. vm_compute. reflexivity. Defined.

(** The chain of the root passes, so the root is pinned. *)
Lemma Pins_root_pinned :
  every_CA (subject_pinned (new_client nl)) [[leaf; root]].
Proof.
  exact (Pins_sound (new_client nl) [] [[leaf; root]] [] root_chain_passes).
Defined.

(** A server certificate alone, and an empty chain. *)
Lemma Pins_leaf_only :
  Pins (new_client nl) [] [[leaf]; []] [] = (None, []).
Proof.
  apply (Pins_no_CA (new_client nl) [] [[leaf]; []] []).
  intros chain certificate Hchain Hcert.
  apply elem_of_cons in Hchain. destruct Hchain as [-> | Hchain].
  - apply list_elem_of_singleton in Hcert. by subst.
  - apply list_elem_of_singleton in Hchain. subst.
    by apply elem_of_nil in Hcert.
Defined.

(** The table read backwards finds the root. *)
Lemma pin_listed_reversed :
  pin_listed (reverse (map_to_list pin_table))
    (CommonName (Subject root)) (certificate_pin root) = true
  ↔ subject_pinned (new_client nl) root.
Proof.
  apply (pin_listed_any_order (new_client nl)
           (reverse (map_to_list pin_table)) root).
  apply reverse_Permutation.
Defined.

(** The host of the requests of the configuration [nl]. *)
Lemma requests_Host_nl :
  ConnectRequest_Host (connect_request (new_client nl) key) = "nl"
  ∧ DisconnectRequest_Host (disconnect_request (new_client nl) None) = "nl"
  ∧ AccessTokenRequest_Host (accessToken_request (new_client nl)) = "nl".
Proof.
  exact (requests_Host (new_client nl) "nl" key None eq_refl).
Defined.

(** The answer [QUJD] is the encoding of [ABC]. *)
Lemma GetAccessToken_ABC :
  let c' := fst (fst (GetAccessToken (env_of token_world)
                        (new_client nl_with_file) [])) in
  accessToken c' = Some (bytes_of_string "ABC") ∧ HaveAccessToken c' = true.
Proof.
  exact (GetAccessToken_encoded (env_of token_world)
           (new_client nl_with_file) [] _ (bytes_of_string "ABC")
           eq_refl
           (ex_intro _ [] (conj eq_refl (conj eq_refl eq_refl)))
           eq_refl eq_refl eq_refl).
Defined.

(** The file [QUJD] gives the credential [ABC]. *)
Lemma NewClient_file_ABC :
  ∃ c,
    fst (NewClient (env_of token_world) nl_with_file []) = (Some c, None)
    ∧ accessToken c = Some (bytes_of_string "ABC")
    ∧ HaveAccessToken c = true.
Proof.
  assert (AccessTokenFile nl_with_file ≠ "") as Hfile by discriminate.
  exact (NewClient_encoded_file (env_of token_world) nl_with_file [] None []
           (bytes_of_string "ABC") Hfile eq_refl eq_refl).
Defined.

End More.
